(** * drive: the [stat] command (src/stat.go)

    A shallow embedding of [stat.go] of the drive client: the report
    formatters ([prettyPermission], [prettyFilePermission],
    [prettyFileStat]), the recursive walker [stat] and the top-level loop
    [statfn], together with the properties of the report, of the traversal
    and of the error aggregation.

    Effects are explicit.  Everything the command does to the outside world
    is recorded, in order, in a trace of events: the calls of the logger
    ([Logf], with the format string and the operands as in the source), the
    calls to the remote, and the entries into [stat].  The package variable
    [firstLine] is a field of the state. *)

From Stdlib Require Import List String Ascii ZArith NArith Bool Lia.
From Stdlib Require Import DecimalString Permutation Sorted.
Import ListNotations.

Local Open Scope string_scope.
Local Open Scope Z_scope.

(** ** Strings as Go has them: byte sequences *)

Module GoString.

Definition byteOf (c : ascii) : N := N_of_ascii c.

Definition inRange (lo hi : N) (c : ascii) : bool :=
  ((lo <=? byteOf c) && (byteOf c <=? hi))%N.

(** [utf8.first] with [utf8.acceptRanges]: for a leading byte of a
    multi-byte sequence, the length of the sequence and the range accepted
    for its second byte; [None] for ASCII and for bytes that cannot lead. *)
Definition leadInfo (c : ascii) : option (nat * N * N) :=
  let b := byteOf c in
  if (b <? 194)%N then None
  else if (b <=? 223)%N then Some (2%nat, 128%N, 191%N)
  else if (b =? 224)%N then Some (3%nat, 160%N, 191%N)
  else if (b <=? 236)%N then Some (3%nat, 128%N, 191%N)
  else if (b =? 237)%N then Some (3%nat, 128%N, 159%N)
  else if (b <=? 239)%N then Some (3%nat, 128%N, 191%N)
  else if (b =? 240)%N then Some (4%nat, 144%N, 191%N)
  else if (b <=? 243)%N then Some (4%nat, 128%N, 191%N)
  else if (b =? 244)%N then Some (4%nat, 128%N, 143%N)
  else None.

Definition cont (c : ascii) : bool := inRange 128 191 c.

(** [utf8.RuneCountInString]: a well-formed sequence counts once, every
    other byte counts for itself. *)
Fixpoint RuneCountInString (s : string) : nat :=
  match s with
  | EmptyString => 0
  | String c r =>
      match leadInfo c with
      | None => S (RuneCountInString r)
      | Some (size, lo, hi) =>
          match r with
          | EmptyString => 1
          | String c1 r1 =>
              match size with
              | 2%nat =>
                  if inRange lo hi c1 then S (RuneCountInString r1)
                  else S (RuneCountInString r)
              | 3%nat =>
                  match r1 with
                  | EmptyString => S (RuneCountInString r)
                  | String c2 r2 =>
                      if inRange lo hi c1 && cont c2
                      then S (RuneCountInString r2)
                      else S (RuneCountInString r)
                  end
              | _ =>
                  match r1 with
                  | String c2 (String c3 r3) =>
                      if inRange lo hi c1 && cont c2 && cont c3
                      then S (RuneCountInString r3)
                      else S (RuneCountInString r)
                  | _ => S (RuneCountInString r)
                  end
              end
          end
      end
  end.

Fixpoint spaces (n : nat) : string :=
  match n with
  | O => EmptyString
  | S n => String " " (spaces n)
  end.

(** [fmt.padString]: the operand in a field of at least [wid] runes,
    blanks on the left, or on the right under the [-] flag. *)
Definition padString (minus : bool) (wid : option nat) (s : string) : string :=
  match wid with
  | None => s
  | Some w =>
      let width := (w - RuneCountInString s)%nat in
      if minus then s ++ spaces width else spaces width ++ s
  end.

(** [strings.TrimPrefix] *)
Definition TrimPrefix (s pre : string) : string :=
  if prefix pre s then substring (length pre) (length s - length pre) s else s.

(** The bytes of [s] between the separators ['/']. *)
Fixpoint splitSlash (s : string) : list string :=
  match s with
  | EmptyString => [EmptyString]
  | String c r =>
      if Ascii.eqb c "/" then EmptyString :: splitSlash r
      else match splitSlash r with
           | [] => [String c EmptyString]
           | x :: xs => String c x :: xs
           end
  end.

(** One element of the path in [filepath.Clean]; [out] holds the elements
    kept so far, the last one first. *)
Definition cleanElem (rooted : bool) (out : list string) (e : string) : list string :=
  if (e =? EmptyString)%string then out
  else if (e =? ".")%string then out
  else if (e =? "..")%string then
    match out with
    | top :: rest =>
        if (top =? "..")%string then ".." :: out else rest
    | [] => if rooted then [] else [".."]
    end
  else e :: out.

(** [filepath.Clean], for the separator ['/']. *)
Definition Clean (path : string) : string :=
  match path with
  | EmptyString => "."
  | String c _ =>
      let rooted := Ascii.eqb c "/" in
      let out := rev (fold_left (cleanElem rooted) (splitSlash path) []) in
      if rooted then "/" ++ concat "/" out
      else match out with
           | [] => "."
           | _ => concat "/" out
           end
  end.

(** [fmt]'s [%v] of an [int64]. *)
Definition itoa (n : Z) : string := NilZero.string_of_int (Z.to_int n).

Definition btoa (b : bool) : string := if b then "true" else "false".

End GoString.

Import GoString.

(** ** Data model *)

(** An [error] value that is not [nil]: its text ([Error()]) and the status
    code it carries.  Go's [error] is [option Error], [None] being [nil]. *)
Record Error := mkError { errText : string; errCode : Z }.

Definition error := option Error.

Module drive.
(** [drive.Permission], the fields [stat.go] reads. *)
Record Permission := mkPermission {
  Name : string;
  EmailAddress : string;
  Role : string;
  Type' : string
}.

(** [drive.FileLabels] *)
Record FileLabels := mkFileLabels {
  Starred : bool;
  Viewed : bool;
  Trashed : bool;
  Restricted : bool
}.
End drive.

Inductive sortKey := Md5Key | NameKey.

Record Options := mkOptions {
  Sources : list string;
  Md5sum : bool;
  CsvOutput : bool;
  Depth : Z;
  Hidden : bool;
  Path : string
}.

(** What [stat.go] takes from elsewhere: [time.Time] with its [String]
    method, the [%q] verb ([strconv.Quote]), and the helpers [prettyBytes],
    [sepJoin] and [rootLike] of the package, which live in other files. *)
Class Externals := {
  Time : Type;
  timeString : Time -> string;
  strconvQuote : string -> string;
  prettyBytes : Z -> string;
  sepJoin : string -> list string -> string;
  rootLike : string -> bool
}.

Section Stat.

Context {ext : Externals}.

(** [File], the fields [stat.go] reads; [Labels] is a pointer, [None]
    when it is [nil]. *)
Record File := mkFile {
  Name : string;
  Id : string;
  Size : Z;
  QuotaBytesUsed : Z;
  IsDir : bool;
  Version : Z;
  MimeType : string;
  Etag : string;
  ModTime : Time;
  LastViewedByMeTime : Time;
  Shared : bool;
  OwnerNames : list string;
  LastModifyingUsername : string;
  Description : string;
  OriginalFilename : string;
  Md5Checksum : string;
  Copyable : bool;
  Labels : option drive.FileLabels
}.

(** *** Formatting *)

(** The operands given to [fmt] in [stat.go]. *)
Inductive operand :=
| VString (s : string)
| VInt (n : Z)
| VBool (b : bool)
| VTime (t : Time)
| VError (e : Error).

(** One operand under one verb.  The pairs that occur in [stat.go] are
    rendered as [fmt] renders them; any other pair is rendered as a
    marker that no call of [stat.go] produces. *)
Definition fmtVerb (verb : ascii) (v : operand) : string :=
  match v with
  | VString s =>
      if Ascii.eqb verb "s" || Ascii.eqb verb "v" then s
      else if Ascii.eqb verb "q" then strconvQuote s
      else "%!" ++ String verb "(BADVERB)"
  | VInt n =>
      if Ascii.eqb verb "v" || Ascii.eqb verb "d" then itoa n
      else "%!" ++ String verb "(BADVERB)"
  | VBool b =>
      if Ascii.eqb verb "v" || Ascii.eqb verb "t" then btoa b
      else "%!" ++ String verb "(BADVERB)"
  | VTime t =>
      if Ascii.eqb verb "v" || Ascii.eqb verb "s" then timeString t
      else "%!" ++ String verb "(BADVERB)"
  | VError e =>
      if Ascii.eqb verb "v" || Ascii.eqb verb "s" then errText e
      else "%!" ++ String verb "(BADVERB)"
  end.

Definition digitOf (c : ascii) : option nat :=
  let b := byteOf c in
  if ((48 <=? b) && (b <=? 57))%N then Some (N.to_nat (b - 48)) else None.

(** Where the scan of the format stands: in plain text, or after a [%],
    with the [-] flag and the width read so far. *)
Inductive scan :=
| Plain
| Directive (minus : bool) (wid : option nat).

(** [fmt.Sprintf] for the formats of [stat.go]: plain text, [%%], and
    [%] [-]? width? verb.  A verb with no operand left prints
    [%!v(MISSING)], as in Go; operands left over are dropped. *)
Fixpoint doPrintf (format : string) (st : scan) (args : list operand) : string :=
  match format with
  | EmptyString =>
      match st with
      | Plain => EmptyString
      | Directive _ _ => "%!(NOVERB)"
      end
  | String c rest =>
      match st with
      | Plain =>
          if Ascii.eqb c "%" then doPrintf rest (Directive false None) args
          else String c (doPrintf rest Plain args)
      | Directive minus wid =>
          match digitOf c, wid with
          | Some d, None => doPrintf rest (Directive minus (Some d)) args
          | Some d, Some w => doPrintf rest (Directive minus (Some (10 * w + d)%nat)) args
          | None, _ =>
              if Ascii.eqb c "-" && match wid with None => true | _ => false end
              then doPrintf rest (Directive true None) args
              else if Ascii.eqb c "%" then String "%" (doPrintf rest Plain args)
              else match args with
                   | [] => "%!" ++ String c "(MISSING)" ++ doPrintf rest Plain []
                   | a :: args' =>
                       padString minus wid (fmtVerb c a) ++ doPrintf rest Plain args'
                   end
          end
      end
  end.

Definition Sprintf (format : string) (args : list operand) : string :=
  doPrintf format Plain args.

(** *** The remote and the page stream *)

(** What the [select] of [stat] receives from the pair of channels of one
    listing, in the order it receives it: a value of the error channel
    ([nil] or not), a child of the data channel, or the data channel
    closed.  A listing ends with the data channel closed; what the
    producer would send after that is never received. *)
Inductive pagePair :=
| errsRecv (err : error) (next : pagePair)
| filesRecv (child : File) (next : pagePair)
| filesClosed.

Record Remote := mkRemote {
  FindByPath : string -> Error + File;
  FindById : string -> Error + File;
  listPermissions : string -> list drive.Permission * error;
  FindByParentId : string -> bool -> pagePair
}.

Record Commands := mkCommands {
  opts : Options;
  rem : Remote
}.

(** *** Effects *)

Inductive event :=
| EvLogf (format : string) (args : list operand)
| EvResolve (src : string)
| EvListPermissions (fileId : string)
| EvFindByParentId (parentId : string) (hidden : bool)
| EvStat (relToRootPath : string) (file : File) (depth : Z).

(** The state of the process: what it has done so far, and the package
    variable [firstLine]. *)
Record World := mkWorld {
  trace : list event;
  firstLine : bool
}.

(** [var firstLine = true] *)
Definition initWorld : World := mkWorld [] true.

(** A computation: from a state to a result and a state, or to nothing
    when the recursion budget of the model is used up. *)
Definition M (A : Type) : Type := World -> option (A * World).

Definition ret {A} (a : A) : M A := fun w => Some (a, w).

Definition bind {A B} (m : M A) (k : A -> M B) : M B :=
  fun w => match m w with
           | Some (a, w') => k a w'
           | None => None
           end.

Definition emit (e : event) : M unit :=
  fun w => Some (tt, mkWorld (trace w ++ [e]) (firstLine w)).

Definition getFirstLine : M bool := fun w => Some (firstLine w, w).

Definition setFirstLine (b : bool) : M unit :=
  fun w => Some (tt, mkWorld (trace w) b).

(** [for _, x := range xs { body }] *)
Fixpoint forRange {A} (xs : list A) (body : A -> M unit) : M unit :=
  match xs with
  | [] => ret tt
  | x :: xs' => bind (body x) (fun _ => forRange xs' body)
  end.

Notation "x <- c ;; k" := (bind c (fun x => k))
  (at level 61, c at next level, right associativity).
Notation "c ;;; k" := (bind c (fun _ => k))
  (at level 61, right associativity).

(** Rocq's string literals have no escapes: the control characters of the
    formats are named. *)
Definition nl : string := String "010" EmptyString.
Definition tab : string := String "009" EmptyString.
Definition esc : string := String "027" EmptyString.

(** [g.log.Logf]: the logger is a write-only, order-preserving sink. *)
Definition Logf (format : string) (args : list operand) : M unit :=
  emit (EvLogf format args).

(** What the sink has received: the text of every [Logf], in order. *)
Definition render (e : event) : string :=
  match e with
  | EvLogf format args => Sprintf format args
  | _ => EmptyString
  end.

Definition output (w : World) : string := concat EmptyString (map render (trace w)).

(** [keyValue]; every [value] built in [stat.go] is a string, and is read
    back with [kv.value.(string)]. *)
Record keyValue := mkKeyValue { key : string; value : string }.

Definition prettyPermission (perm : drive.Permission) : M unit :=
  Logf (nl ++ "*" ++ nl ++ "Name: %v <%s>" ++ nl)
       [VString (drive.Name perm); VString (drive.EmailAddress perm)] ;;;
  let kvList := [ mkKeyValue "Role" (drive.Role perm);
                  mkKeyValue "AccountType" (drive.Type' perm) ] in
  forRange kvList (fun kv =>
    Logf ("%-20s %-30v" ++ nl) [VString (key kv); VString (value kv)]) ;;;
  Logf ("*" ++ nl) [].

Definition dirTypeOf (file : File) : string :=
  if IsDir file then "folder" else "file".

Definition prettyFilePermission (perm : drive.Permission) (file : File) : M unit :=
  let dirType := dirTypeOf file in
  let kvList := [ mkKeyValue "Role" (drive.Role perm);
                  mkKeyValue "AccountType" (drive.Type' perm) ] in
  Logf ("%-60v,%-10v,%-25v,%-25v" ++ tab ++ tab)
       [VString (Name file); VString dirType;
        VString (drive.Name perm); VString (drive.EmailAddress perm)] ;;;
  forRange kvList (fun kv => Logf ",%-25v" [VString (value kv)]) ;;;
  Logf nl [].

(** The rows of [prettyFileStat], before they are logged. *)
Definition fileStatRows (file : File) : list keyValue :=
  let dirType := dirTypeOf file in
  let kvList :=
    [ mkKeyValue "Filename" (Name file);
      mkKeyValue "FileId" (Id file);
      mkKeyValue "Bytes" (Sprintf "%v" [VInt (Size file)]);
      mkKeyValue "Size" (prettyBytes (Size file));
      mkKeyValue "QuotaBytesUsed" (Sprintf "%v" [VInt (QuotaBytesUsed file)]);
      mkKeyValue "DirType" dirType;
      mkKeyValue "VersionNumber" (Sprintf "%v" [VInt (Version file)]);
      mkKeyValue "MimeType" (MimeType file);
      mkKeyValue "Etag" (Etag file);
      mkKeyValue "ModTime" (Sprintf "%v" [VTime (ModTime file)]);
      mkKeyValue "LastViewedByMe" (Sprintf "%v" [VTime (LastViewedByMeTime file)]);
      mkKeyValue "Shared" (Sprintf "%v" [VBool (Shared file)]);
      mkKeyValue "Owners" (sepJoin " & " (OwnerNames file));
      mkKeyValue "LastModifyingUsername" (LastModifyingUsername file) ] in
  let kvList :=
    if negb (Description file =? EmptyString)%string
    then (kvList ++ [mkKeyValue "Description" (Sprintf "%q" [VString (Description file)])])%list
    else kvList in
  let kvList :=
    if negb (Name file =? OriginalFilename file)%string
    then (kvList ++ [mkKeyValue "OriginalFilename" (OriginalFilename file)])%list
    else kvList in
  let kvList :=
    if negb (IsDir file)
    then ((kvList ++ [mkKeyValue "Md5Checksum" (Md5Checksum file)])
            ++ [mkKeyValue "Copyable" (Sprintf "%v" [VBool (Copyable file)])])%list
    else kvList in
  let kvList :=
    match Labels file with
    | Some labels =>
        (kvList ++
         [ mkKeyValue "Starred" (Sprintf "%v" [VBool (drive.Starred labels)]);
           mkKeyValue "Viewed" (Sprintf "%v" [VBool (drive.Viewed labels)]);
           mkKeyValue "Trashed" (Sprintf "%v" [VBool (drive.Trashed labels)]);
           mkKeyValue "ViewersCanDownload" (Sprintf "%v" [VBool (drive.Restricted labels)]) ])%list
    | None => kvList
    end in
  kvList.

Definition prettyFileStat (relToRootPath : string) (file : File) : M unit :=
  Logf (nl ++ esc ++ "[92m%s" ++ esc ++ "[00m" ++ nl) [VString relToRootPath] ;;;
  forRange (fileStatRows file) (fun kv =>
    Logf ("%-25s %-30v" ++ nl) [VString (key kv); VString (value kv)]).

Definition csvHeader : string := "File Name, Type, Name, Email, Role, AccountType" ++ nl.

(** *** Sorting the children *)

Definition keyCompare (k : sortKey) (a b : File) : comparison :=
  match k with
  | Md5Key => String.compare (Md5Checksum a) (Md5Checksum b)
  | NameKey => String.compare (Name a) (Name b)
  end.

(** The first key that tells [a] and [b] apart decides. *)
Fixpoint compareBy (keys : list sortKey) (a b : File) : comparison :=
  match keys with
  | [] => Eq
  | k :: ks =>
      match keyCompare k a b with
      | Eq => compareBy ks a b
      | c => c
      end
  end.

Definition lessEq (keys : list sortKey) (a b : File) : bool :=
  match compareBy keys a b with
  | Gt => false
  | _ => true
  end.

Fixpoint insertBy (keys : list sortKey) (x : File) (l : list File) : list File :=
  match l with
  | [] => [x]
  | y :: l' => if lessEq keys x y then x :: l else y :: insertBy keys x l'
  end.

(** Modelled from the spec: [g.sort] is defined in another file of the
    package.  The spec has the children sorted by the keys in the order
    given (checksum first, name second), ties keeping the order of
    delivery; strings compare byte by byte, so an empty checksum sorts
    first. *)
Definition gsort (files : list File) (keys : list sortKey) : list File :=
  fold_right (insertBy keys) [] files.

(** *** Aggregating errors *)

(** Modelled from the spec: [reComposeError] is defined in another file of
    the package.  The spec has the messages of the failures concatenated,
    joined by newlines, none discarded. *)
Definition reComposeError (prevErr : error) (message : string) : error :=
  match prevErr with
  | None => Some (mkError message 0)
  | Some e => Some (mkError (errText e ++ nl ++ message) (errCode e))
  end.

(** Modelled from the spec: [copyErrStatusCode] is defined in another file
    of the package.  The spec has one status code retained, the last one
    written. *)
Definition copyErrStatusCode (to from : error) : error :=
  match to, from with
  | Some t, Some f => Some (mkError (errText t) (errCode f))
  | _, _ => to
  end.

(** *** The walker *)

(** The [for working { select { ... } }] loop of [stat]: the children
    received until the data channel is closed, or the first error that is
    not [nil]. *)
Fixpoint collect (pagePair : pagePair) (remoteChildren : list File) : Error + list File :=
  match pagePair with
  | errsRecv (Some err) _ => inl err
  | errsRecv None next => collect next remoteChildren
  | filesRecv child next => collect next (remoteChildren ++ [child])
  | filesClosed => inr remoteChildren
  end.

(** Lines 158 to 183 of [stat]: the report of one file.  The result is
    [Some permErr] when [stat] returns [permErr] there. *)
Definition statReport (g : Commands) (relToRootPath : string) (file : File) : M error :=
  if Md5sum (opts g) then
    (if negb (Md5Checksum file =? EmptyString)%string
     then Logf ("%32s  %s" ++ nl)
               [VString (Md5Checksum file); VString (TrimPrefix relToRootPath "/")]
     else ret tt) ;;;
    ret None
  else
    emit (EvListPermissions (Id file)) ;;;
    let (perms, permErr) := listPermissions (rem g) (Id file) in
    if CsvOutput (opts g) then
      first <- getFirstLine ;;
      (if first then Logf csvHeader [] ;;; setFirstLine false else ret tt) ;;;
      forRange perms (fun perm => prettyFilePermission perm file) ;;;
      ret None
    else
      prettyFileStat relToRootPath file ;;;
      match permErr with
      | Some e => ret (Some e)
      | None => forRange perms prettyPermission ;;; ret None
      end.

(** [stat].  [fuel] bounds the depth of the recursion of the model; with
    none left the result is [None]. *)
Fixpoint stat (fuel : nat) (g : Commands) (relToRootPath : string) (file : File)
    (depth : Z) : M error :=
  match fuel with
  | O => fun _ => None
  | S fuel' =>
      emit (EvStat relToRootPath file depth) ;;;
      returned <- statReport g relToRootPath file ;;
      match returned with
      | Some permErr => ret (Some permErr)
      | None =>
          if depth =? 0 then ret None
          else if negb (IsDir file) then ret None
          else
            let depth := if depth >=? 1 then depth - 1 else depth in
            emit (EvFindByParentId (Id file) (Hidden (opts g))) ;;;
            match collect (FindByParentId (rem g) (Id file) (Hidden (opts g))) [] with
            | inl err => ret (Some err)
            | inr remoteChildren =>
                let remoteChildren :=
                  if Md5sum (opts g) then gsort remoteChildren [Md5Key; NameKey]
                  else remoteChildren in
                forRange remoteChildren (fun child =>
                  _ <- stat fuel' g (Clean (relToRootPath ++ "/" ++ Name child)) child depth ;;
                  ret tt) ;;;
                ret None
            end
      end
  end.

(** The message of a failure in [statfn]. *)
Definition failureMsg (fname src : string) (fErr : Error) : string :=
  Sprintf ("%s: %s err: %v" ++ nl) [VString fname; VString src; VError fErr].

(** The loop of [statfn] over the sources left, [err] being the error
    composed so far. *)
Fixpoint statfnLoop (fuel : nat) (g : Commands) (fname : string)
    (fn : string -> Error + File) (sources : list string) (err : error) : M error :=
  match sources with
  | [] => ret err
  | src :: rest =>
      emit (EvResolve src) ;;;
      match fn src with
      | inl fErr =>
          let msg := failureMsg fname src fErr in
          let err := reComposeError err msg in
          let err := copyErrStatusCode err (Some fErr) in
          statfnLoop fuel g fname fn rest err
      | inr f =>
          let src :=
            if Md5sum (opts g)
            then (if IsDir f && rootLike (Path (opts g)) then EmptyString else Name f)
            else src in
          fErr <- stat fuel g src f (Depth (opts g)) ;;
          match fErr with
          | Some fErr =>
              let msg := failureMsg fname src fErr in
              let err := reComposeError err msg in
              let err := copyErrStatusCode err (Some fErr) in
              statfnLoop fuel g fname fn rest err
          | None => statfnLoop fuel g fname fn rest err
          end
      end
  end.

Definition statfn (fuel : nat) (g : Commands) (fname : string)
    (fn : string -> Error + File) : M error :=
  statfnLoop fuel g fname fn (Sources (opts g)) None.

Definition StatById (fuel : nat) (g : Commands) : M error :=
  statfn fuel g "statById" (FindById (rem g)).

Definition Stat (fuel : nat) (g : Commands) : M error :=
  statfn fuel g "stat" (FindByPath (rem g)).

End Stat.

(** ** A small store, to run the model on *)

Module Sample.

#[global] Instance ext : Externals := {|
  Time := Z;
  timeString := fun t => itoa t;
  strconvQuote := fun s => String "034" s ++ String "034" EmptyString;
  prettyBytes := fun n => itoa n ++ "B";
  sepJoin := fun sep l => concat sep l;
  rootLike := fun p => (p =? "/")%string || (p =? EmptyString)%string || (p =? "root")%string
|}.

Definition fileOf (name id : string) (dir : bool) (md5 : string) : File :=
  mkFile name id 0 0 dir 1 "text/plain" "etag" 0 0 false [] "me" EmptyString name md5 true None.

(** [/a] holds the file [b] and the folder [c]; [c] holds [d], and its
    listing fails after [d]; the permissions of [d] cannot be read.  No
    other path resolves: [/bad2] fails with a backend error, the others are
    not found. *)
Definition a := fileOf "a" "id-a" true EmptyString.
Definition b := fileOf "b" "id-b" false "deadbeef".
Definition c := fileOf "c" "id-c" true EmptyString.
Definition d := fileOf "d" "id-d" false "00ff".

Definition notFound : Error := mkError "not found" 404.
Definition ioErr : Error := mkError "backend error" 500.
Definition denied : Error := mkError "permission denied" 403.

Definition owner : drive.Permission :=
  drive.mkPermission "Ann" "ann@example.com" "owner" "user".

Definition rem : Remote :=
  mkRemote
    (fun p => if (p =? "/a")%string then inr a
              else if (p =? "/bad2")%string then inl ioErr
              else inl notFound)
    (fun i => if (i =? "id-a")%string then inr a
              else if (i =? "id-d")%string then inr d
              else inl notFound)
    (fun i => if (i =? "id-d")%string then ([], Some denied)
              else if (i =? "id-b")%string then ([owner], None)
              else ([], None))
    (fun i _ => if (i =? "id-a")%string
                then errsRecv None (filesRecv b (filesRecv c filesClosed))
                else if (i =? "id-c")%string
                then filesRecv d (errsRecv (Some ioErr) filesClosed)
                else filesClosed).

Definition cmd (md5sum csv : bool) (depth : Z) (srcs : list string) : Commands :=
  mkCommands (mkOptions srcs md5sum csv depth false "/x") rem.

Definition md5 (srcs : list string) : Commands := cmd true false 1 srcs.

End Sample.

(** * Properties *)

Example RuneCount_ascii : RuneCountInString "deadbeef" = 8%nat.
Proof. reflexivity. Qed.

Example RuneCount_utf8 :
  RuneCountInString (String "195" (String "169" "t" ++ String "255" EmptyString)) = 3%nat.
Proof. reflexivity. Qed.

Example Clean_join : Clean ("/a//" ++ "/" ++ "b") = "/a/b".
Proof. reflexivity. Qed.

Example Clean_empty_parent : Clean (EmptyString ++ "/" ++ "b") = "/b".
Proof. reflexivity. Qed.

Example Clean_dotdot : Clean "a/../../b/./c/" = "../b/c".
Proof. reflexivity. Qed.

Example TrimPrefix_once : TrimPrefix "//a" "/" = "/a".
Proof. reflexivity. Qed.

Example Stat_sample :
  match Stat 5 (Sample.md5 ["/a"; "/zz"]) initWorld with
  | Some (r, w) => Some (r, output w)
  | None => None
  end
  = Some (Some (mkError ("stat: /zz err: not found" ++ nl) 404),
          spaces 24 ++ "deadbeef  a/b" ++ nl).
Proof. reflexivity. Qed.

Section Properties.

Context {ext : Externals}.

Notation "x <- c ;; k" := (bind c (fun x => k))
  (at level 61, c at next level, right associativity).
Notation "c ;;; k" := (bind c (fun _ => k))
  (at level 61, right associativity).

Local Open Scope list_scope.

(** ** Computations that only write to the trace *)

(** [m] returns [a] after appending [evs] to the trace, whatever the state,
    and leaves [firstLine] alone. *)
Definition emits {A} (m : M A) (a : A) (evs : list event) : Prop :=
  forall w, m w = Some (a, mkWorld (trace w ++ evs) (firstLine w)).

Lemma emits_ret {A} (a : A) : emits (ret a) a [].
Proof. intros [t fl]; unfold ret; simpl; now rewrite app_nil_r. Qed.

Lemma emits_emit (e : event) : emits (emit e) tt [e].
Proof. intros w; reflexivity. Qed.

Lemma emits_Logf format args : emits (Logf format args) tt [EvLogf format args].
Proof. apply emits_emit. Qed.

Lemma emits_bind {A B} (m : M A) (k : A -> M B) a b e1 e2 :
  emits m a e1 -> emits (k a) b e2 -> emits (bind m k) b (e1 ++ e2).
Proof.
  intros Hm Hk w; unfold bind; rewrite Hm, Hk; simpl.
  now rewrite app_assoc.
Qed.

Lemma emits_forRange {A} (body : A -> M unit) (f : A -> list event) xs :
  (forall x, emits (body x) tt (f x)) ->
  emits (forRange xs body) tt (flat_map f xs).
Proof.
  intros Hb; induction xs as [|x xs IH]; simpl.
  - apply emits_ret.
  - apply emits_bind with (a := tt); [apply Hb | exact IH].
Qed.

(** The events of the three formatters. *)
Definition permissionEvents (perm : drive.Permission) : list event :=
  [ EvLogf (nl ++ "*" ++ nl ++ "Name: %v <%s>" ++ nl)
           [VString (drive.Name perm); VString (drive.EmailAddress perm)];
    EvLogf ("%-20s %-30v" ++ nl) [VString "Role"; VString (drive.Role perm)];
    EvLogf ("%-20s %-30v" ++ nl) [VString "AccountType"; VString (drive.Type' perm)];
    EvLogf ("*" ++ nl) [] ].

Definition filePermissionEvents (perm : drive.Permission) (file : File) : list event :=
  [ EvLogf ("%-60v,%-10v,%-25v,%-25v" ++ tab ++ tab)
           [VString (Name file); VString (dirTypeOf file);
            VString (drive.Name perm); VString (drive.EmailAddress perm)];
    EvLogf ",%-25v" [VString (drive.Role perm)];
    EvLogf ",%-25v" [VString (drive.Type' perm)];
    EvLogf nl [] ].

Definition rowEvent (kv : keyValue) : event :=
  EvLogf ("%-25s %-30v" ++ nl) [VString (key kv); VString (value kv)].

Definition fileStatEvents (relToRootPath : string) (file : File) : list event :=
  EvLogf (nl ++ esc ++ "[92m%s" ++ esc ++ "[00m" ++ nl) [VString relToRootPath]
  :: map rowEvent (fileStatRows file).

Lemma prettyPermission_emits perm :
  emits (prettyPermission perm) tt (permissionEvents perm).
Proof.
  intros w; unfold prettyPermission, permissionEvents, bind, Logf, emit; simpl.
  now rewrite <- !app_assoc.
Qed.

Lemma prettyFilePermission_emits perm file :
  emits (prettyFilePermission perm file) tt (filePermissionEvents perm file).
Proof.
  intros w; unfold prettyFilePermission, filePermissionEvents, bind, Logf, emit; simpl.
  now rewrite <- !app_assoc.
Qed.

Lemma flat_map_singleton {A B} (f : A -> B) xs :
  flat_map (fun x => [f x]) xs = map f xs.
Proof. induction xs; simpl; congruence. Qed.

Lemma prettyFileStat_emits path file :
  emits (prettyFileStat path file) tt (fileStatEvents path file).
Proof.
  unfold prettyFileStat, fileStatEvents.
  apply (emits_bind _ _ tt tt [_]); [apply emits_Logf|].
  rewrite <- flat_map_singleton.
  apply emits_forRange; intros kv; apply emits_Logf.
Qed.

(** ** The report of one file *)

(** The line of checksum mode, when the checksum is not empty. *)
Definition checksumEvents (relToRootPath : string) (file : File) : list event :=
  if (Md5Checksum file =? EmptyString)%string then []
  else [EvLogf ("%32s  %s" ++ nl)
               [VString (Md5Checksum file); VString (TrimPrefix relToRootPath "/")]].

(** What [stat] does for [file] itself, [first] being the value of
    [firstLine] when it starts. *)
Definition reportEvents (g : Commands) (relToRootPath : string) (file : File)
    (first : bool) : list event :=
  if Md5sum (opts g) then checksumEvents relToRootPath file
  else
    EvListPermissions (Id file) ::
    (if CsvOutput (opts g) then
       (if first then [EvLogf csvHeader []] else []) ++
       flat_map (fun perm => filePermissionEvents perm file)
                (fst (listPermissions (rem g) (Id file)))
     else
       fileStatEvents relToRootPath file ++
       match snd (listPermissions (rem g) (Id file)) with
       | Some _ => []
       | None => flat_map permissionEvents (fst (listPermissions (rem g) (Id file)))
       end).

(** The error [stat] returns right after the report, if any. *)
Definition reportResult (g : Commands) (file : File) : error :=
  if Md5sum (opts g) then None
  else if CsvOutput (opts g) then None
  else snd (listPermissions (rem g) (Id file)).

Definition reportFirstLine (g : Commands) (first : bool) : bool :=
  if Md5sum (opts g) then first
  else if CsvOutput (opts g) then false
  else first.

Lemma statReport_spec g path file w :
  statReport g path file w =
  Some (reportResult g file,
        mkWorld (trace w ++ reportEvents g path file (firstLine w))
                (reportFirstLine g (firstLine w))).
Proof.
  unfold statReport, reportEvents, reportResult, reportFirstLine, checksumEvents.
  destruct (Md5sum (opts g)).
  - destruct (Md5Checksum file =? EmptyString)%string; simpl.
    + unfold bind, ret; simpl. rewrite app_nil_r. now destruct w.
    + reflexivity.
  - destruct (listPermissions (rem g) (Id file)) as [perms permErr]; simpl.
    destruct (CsvOutput (opts g)).
    + pose proof (emits_forRange (fun perm => prettyFilePermission perm file)
                    (fun perm => filePermissionEvents perm file) perms
                    (fun perm => prettyFilePermission_emits perm file)) as Hrows.
      unfold bind, emit, getFirstLine, setFirstLine, Logf, ret; simpl.
      destruct (firstLine w); simpl; rewrite Hrows; simpl;
        now rewrite <- !app_assoc.
    + pose proof (prettyFileStat_emits path file) as Hstat.
      pose proof (emits_forRange prettyPermission permissionEvents perms
                    prettyPermission_emits) as Hperms.
      unfold bind, emit, ret; simpl. rewrite Hstat; simpl.
      destruct permErr; simpl.
      * now rewrite app_nil_r, <- !app_assoc.
      * rewrite Hperms; simpl. now rewrite <- !app_assoc.
Qed.

(** The events of a report: calls of the logger and the fetch of the
    permissions. *)
Definition isReport (e : event) : bool :=
  match e with
  | EvLogf _ _ | EvListPermissions _ => true
  | _ => false
  end.

Lemma forallb_flat_map {A B} (p : B -> bool) (f : A -> list B) xs :
  (forall x, forallb p (f x) = true) -> forallb p (flat_map f xs) = true.
Proof.
  intros H; induction xs; simpl; [reflexivity|].
  now rewrite forallb_app, H, IHxs.
Qed.

Lemma reportEvents_isReport g path file first :
  forallb isReport (reportEvents g path file first) = true.
Proof.
  unfold reportEvents, checksumEvents.
  destruct (Md5sum (opts g)).
  - now destruct (Md5Checksum file =? EmptyString)%string.
  - simpl. destruct (CsvOutput (opts g)).
    + rewrite forallb_app. apply andb_true_intro; split.
      * now destruct first.
      * now apply forallb_flat_map.
    + unfold fileStatEvents; simpl. rewrite forallb_app.
      apply andb_true_intro; split.
      * rewrite forallb_forall; intros e He.
        apply in_map_iff in He as [kv [<- _]]; reflexivity.
      * destruct (snd _); [reflexivity|]. now apply forallb_flat_map.
Qed.

(** ** The structure of [stat] *)

Definition nextDepth (depth : Z) : Z := if depth >=? 1 then depth - 1 else depth.

(** The order in which the children are visited. *)
Definition childOrder (g : Commands) (remoteChildren : list File) : list File :=
  if Md5sum (opts g) then gsort remoteChildren [Md5Key; NameKey] else remoteChildren.

(** The last loop of [stat], over [children]. *)
Definition statChildren (fuel : nat) (g : Commands) (relToRootPath : string)
    (depth : Z) (children : list File) : M unit :=
  forRange children (fun child =>
    _ <- stat fuel g (Clean (relToRootPath ++ "/" ++ Name child)) child depth ;;
    ret tt).

(** The state when the report of [file] is done. *)
Definition afterReport (g : Commands) (path : string) (file : File) (depth : Z)
    (w : World) : World :=
  mkWorld (trace w ++ EvStat path file depth :: reportEvents g path file (firstLine w))
          (reportFirstLine g (firstLine w)).

(** The state when the listing of the children of [file] is opened. *)
Definition afterListing (g : Commands) (path : string) (file : File) (depth : Z)
    (w : World) : World :=
  mkWorld (trace (afterReport g path file depth w)
             ++ [EvFindByParentId (Id file) (Hidden (opts g))])
          (reportFirstLine g (firstLine w)).

Lemma stat_unfold fuel g path file depth w :
  stat (S fuel) g path file depth w =
  match reportResult g file with
  | Some permErr => Some (Some permErr, afterReport g path file depth w)
  | None =>
      if (depth =? 0) || negb (IsDir file)
      then Some (None, afterReport g path file depth w)
      else
        match collect (FindByParentId (rem g) (Id file) (Hidden (opts g))) [] with
        | inl err => Some (Some err, afterListing g path file depth w)
        | inr remoteChildren =>
            match statChildren fuel g path (nextDepth depth)
                    (childOrder g remoteChildren) (afterListing g path file depth w) with
            | Some (_, w') => Some (None, w')
            | None => None
            end
        end
  end.
Proof.
  cbn [stat]. unfold bind at 1. cbn [emit].
  unfold bind at 1. rewrite statReport_spec. cbn [trace firstLine].
  unfold afterListing, afterReport. rewrite <- app_assoc. cbn [app].
  destruct (reportResult g file); [reflexivity|].
  destruct (depth =? 0); [reflexivity|].
  destruct (IsDir file); [|reflexivity].
  cbn [negb orb]. unfold bind at 1. cbn [emit trace firstLine].
  destruct (collect _ _); [reflexivity|].
  unfold bind at 1. unfold statChildren, childOrder, nextDepth.
  destruct (forRange _ _ _) as [[[] w']|]; reflexivity.
Qed.

(** ** The page stream *)

(** The first error that is not [nil] among the receptions of a listing. *)
Fixpoint firstError (p : pagePair) : error :=
  match p with
  | errsRecv (Some e) _ => Some e
  | errsRecv None next => firstError next
  | filesRecv _ next => firstError next
  | filesClosed => None
  end.

(** The children a listing delivers, in the order of delivery. *)
Fixpoint delivered (p : pagePair) : list File :=
  match p with
  | errsRecv _ next => delivered next
  | filesRecv child next => child :: delivered next
  | filesClosed => []
  end.

Lemma collect_spec p : forall acc,
  collect p acc =
  match firstError p with
  | Some e => inl e
  | None => inr (acc ++ delivered p)
  end.
Proof.
  induction p as [err next IH|child next IH|]; intros acc; simpl.
  - destruct err; [reflexivity|apply IH].
  - rewrite IH. destruct (firstError next); [reflexivity|].
    now rewrite <- app_assoc.
  - now rewrite app_nil_r.
Qed.

(** ** Termination and the shape of the trace *)

Lemma forRange_total {A} (body : A -> M unit) xs :
  (forall x w, exists w', body x w = Some (tt, w')) ->
  forall w, exists w', forRange xs body w = Some (tt, w').
Proof.
  intros Hb; induction xs as [|x xs IH]; intros w; simpl.
  - now exists w.
  - unfold bind. destruct (Hb x w) as [w1 ->]. apply IH.
Qed.

(** With a depth budget that is not negative, [stat] returns as soon as the
    fuel exceeds the budget. *)
Lemma stat_total fuel : forall depth g path file w,
  0 <= depth -> (Z.to_nat depth < fuel)%nat ->
  exists r w', stat fuel g path file depth w = Some (r, w').
Proof.
  induction fuel as [|fuel IH]; intros depth g path file w Hd Hf; [lia|].
  rewrite stat_unfold.
  destruct (reportResult g file); [eauto|].
  destruct ((depth =? 0) || negb (IsDir file)) eqn:Hleaf; [eauto|].
  destruct (collect _ _) as [err|cs]; [eauto|].
  apply orb_false_iff in Hleaf as [Hz _]. apply Z.eqb_neq in Hz.
  assert (Hn : nextDepth depth = depth - 1).
  { unfold nextDepth. destruct (depth >=? 1) eqn:E; [reflexivity|lia]. }
  destruct (forRange_total
              (fun child => _ <- stat fuel g (Clean (path ++ "/" ++ Name child))
                                   child (nextDepth depth) ;; ret tt)
              (childOrder g cs)) with (w := afterListing g path file depth w)
    as [w' Hw'].
  - intros c w0. unfold bind, ret.
    destruct (IH (nextDepth depth) g (Clean (path ++ "/" ++ Name c)) c w0)
      as [r [w1 ->]]; [lia|lia|]. eauto.
  - unfold statChildren. rewrite Hw'. eauto.
Qed.

(** A call of [stat] only adds to the trace, and what it adds starts with
    its own entry. *)
Lemma stat_extends fuel : forall g path file depth w r w',
  stat fuel g path file depth w = Some (r, w') ->
  exists evs, trace w' = trace w ++ EvStat path file depth :: evs.
Proof.
  induction fuel as [|fuel IH]; intros g path file depth w r w' H; [discriminate|].
  rewrite stat_unfold in H.
  destruct (reportResult g file).
  { inversion H; subst; unfold afterReport; simpl; eauto. }
  destruct ((depth =? 0) || negb (IsDir file)).
  { inversion H; subst; unfold afterReport; simpl; eauto. }
  destruct (collect _ _) as [err|cs].
  { inversion H; subst; unfold afterListing, afterReport; simpl.
    rewrite <- app_assoc; simpl; eauto. }
  destruct (statChildren _ _ _ _ _ _) as [[u w1]|] eqn:Hc; [|discriminate].
  inversion H; subst; clear H.
  assert (Hloop : forall cs0 w0 u0 w2,
             statChildren fuel g path (nextDepth depth) cs0 w0 = Some (u0, w2) ->
             exists evs, trace w2 = trace w0 ++ evs).
  { induction cs0 as [|c cs0 IHc]; intros w0 u0 w2 H0; unfold statChildren in *; simpl in H0.
    - inversion H0; subst. exists []. now rewrite app_nil_r.
    - unfold bind at 1 2 in H0.
      destruct (stat fuel g _ c _ w0) as [[r1 w3]|] eqn:Hs; [|discriminate].
      apply IH in Hs as [e1 He1]. apply IHc in H0 as [e2 He2].
      rewrite He2, He1, <- app_assoc. eauto. }
  apply Hloop in Hc as [evs Hevs]. rewrite Hevs.
  unfold afterListing, afterReport; simpl. rewrite <- !app_assoc; simpl. eauto.
Qed.

(** The loop over the children enters [stat] for every one of them,
    whatever the calls before returned. *)
Lemma statChildren_visits fuel g path depth : forall children w u w',
  statChildren fuel g path depth children w = Some (u, w') ->
  exists evs, trace w' = trace w ++ evs /\
    forall child, In child children ->
      In (EvStat (Clean (path ++ "/" ++ Name child)) child depth) evs.
Proof.
  induction children as [|c cs IH]; intros w u w' H; unfold statChildren in *; simpl in H.
  - inversion H; subst. exists []. rewrite app_nil_r. split; [reflexivity|]. intros ? [].
  - unfold bind at 1 2 in H.
    destruct (stat fuel g _ c _ w) as [[r1 w1]|] eqn:Hs; [|discriminate].
    apply stat_extends in Hs as [e1 He1]. apply IH in H as [e2 [He2 Hin]].
    exists ((EvStat (Clean (path ++ "/" ++ Name c)) c depth :: e1) ++ e2). split.
    + now rewrite He2, He1, <- app_assoc.
    + intros child [<-|Hc]; apply in_or_app; [left; now left|right; auto].
Qed.

(** ** Sorting *)

(** [a] comes no later than [b]: by checksum first, by name second, both
    compared byte by byte. *)
Definition md5NameLe (a b : File) : Prop :=
  String.ltb (Md5Checksum a) (Md5Checksum b) = true \/
  (Md5Checksum a = Md5Checksum b /\ String.leb (Name a) (Name b) = true).

Lemma string_compare_refl s : String.compare s s = Eq.
Proof.
  pose proof (String.compare_antisym s s) as H.
  destruct (String.compare s s); simpl in H; congruence.
Qed.

Lemma lessEq_md5NameLe a b :
  lessEq [Md5Key; NameKey] a b = true <-> md5NameLe a b.
Proof.
  unfold lessEq, md5NameLe, String.ltb, String.leb; simpl.
  destruct (String.compare (Md5Checksum a) (Md5Checksum b)) eqn:E.
  - apply String.compare_eq_iff in E.
    destruct (String.compare (Name a) (Name b)); split; intros H; auto;
      try discriminate; destruct H as [H|[_ H]]; discriminate.
  - split; auto.
  - split; [discriminate|]. intros [H|[H _]]; [discriminate|].
    rewrite H, string_compare_refl in E. discriminate.
Qed.

Lemma compareBy_antisym keys a b :
  compareBy keys b a = CompOpp (compareBy keys a b).
Proof.
  induction keys as [|k ks IH]; simpl; [reflexivity|].
  assert (Hk : keyCompare k b a = CompOpp (keyCompare k a b)).
  { destruct k; simpl; apply String.compare_antisym. }
  rewrite Hk. destruct (keyCompare k a b); simpl; auto.
Qed.

Lemma lessEq_total keys a b :
  lessEq keys a b = false -> lessEq keys b a = true.
Proof.
  unfold lessEq. rewrite (compareBy_antisym keys a b).
  destruct (compareBy keys a b); simpl; congruence.
Qed.

Lemma insertBy_Permutation keys x l : Permutation (x :: l) (insertBy keys x l).
Proof.
  induction l as [|y l IH]; simpl; [reflexivity|].
  destruct (lessEq keys x y); [reflexivity|].
  rewrite perm_swap. now constructor.
Qed.

Lemma gsort_Permutation keys l : Permutation l (gsort l keys).
Proof.
  induction l as [|x l IH]; simpl; [constructor|].
  rewrite <- insertBy_Permutation. now constructor.
Qed.

Lemma insertBy_Sorted keys x l :
  Sorted (fun a b => lessEq keys a b = true) l ->
  Sorted (fun a b => lessEq keys a b = true) (insertBy keys x l).
Proof.
  induction 1 as [|y l Hs IH Hhd]; simpl; [repeat constructor|].
  destruct (lessEq keys x y) eqn:E.
  - repeat constructor; assumption.
  - constructor; [exact IH|].
    destruct l as [|z l]; simpl.
    + constructor. now apply lessEq_total.
    + destruct (lessEq keys x z); constructor.
      * now apply lessEq_total.
      * now inversion Hhd.
Qed.

Lemma gsort_Sorted keys l :
  Sorted (fun a b => lessEq keys a b = true) (gsort l keys).
Proof.
  induction l as [|x l IH]; simpl; [constructor|]. now apply insertBy_Sorted.
Qed.

Lemma Sorted_impl {A} (R S : A -> A -> Prop) l :
  (forall a b, R a b -> S a b) -> Sorted R l -> Sorted S l.
Proof.
  intros HRS; induction 1 as [|x l Hs IH Hhd]; constructor; auto.
  destruct Hhd; constructor; auto.
Qed.

Lemma ascii_compare_refl x : Ascii.compare x x = Eq.
Proof. unfold Ascii.compare. apply N.compare_refl. Qed.

Lemma string_lt_trans a : forall b c,
  String.compare a b = Lt -> String.compare b c = Lt -> String.compare a c = Lt.
Proof.
  induction a as [|x a IH]; intros [|y b] [|z c]; simpl; try discriminate; auto.
  destruct (Ascii.compare x y) eqn:Exy; destruct (Ascii.compare y z) eqn:Eyz;
    try discriminate.
  - apply Ascii.compare_eq_iff in Exy, Eyz; subst.
    rewrite ascii_compare_refl. apply IH.
  - apply Ascii.compare_eq_iff in Exy; subst. now rewrite Eyz.
  - apply Ascii.compare_eq_iff in Eyz; subst. now rewrite Exy.
  - unfold Ascii.compare in *. rewrite N.compare_lt_iff in *.
    assert (H : (N_of_ascii x < N_of_ascii z)%N) by (eapply N.lt_trans; eassumption).
    apply N.compare_lt_iff in H. now rewrite H.
Qed.

Lemma string_leb_trans a b c :
  String.leb a b = true -> String.leb b c = true -> String.leb a c = true.
Proof.
  unfold String.leb.
  destruct (String.compare a b) eqn:Eab; try discriminate;
    destruct (String.compare b c) eqn:Ebc; try discriminate; intros _ _.
  - apply String.compare_eq_iff in Eab; subst. now rewrite Ebc.
  - apply String.compare_eq_iff in Eab; subst. now rewrite Ebc.
  - apply String.compare_eq_iff in Ebc; subst. now rewrite Eab.
  - now rewrite (string_lt_trans _ _ _ Eab Ebc).
Qed.

Lemma md5NameLe_trans a b c : md5NameLe a b -> md5NameLe b c -> md5NameLe a c.
Proof.
  unfold md5NameLe, String.ltb.
  intros [Hab|[Eab Nab]] [Hbc|[Ebc Nbc]].
  - left. destruct (String.compare (Md5Checksum a) (Md5Checksum b)) eqn:E1;
      try discriminate.
    destruct (String.compare (Md5Checksum b) (Md5Checksum c)) eqn:E2;
      try discriminate.
    now rewrite (string_lt_trans _ _ _ E1 E2).
  - left. now rewrite <- Ebc.
  - left. now rewrite Eab.
  - right. split; [congruence|]. eapply string_leb_trans; eassumption.
Qed.

Lemma gsort_md5Name l : StronglySorted md5NameLe (gsort l [Md5Key; NameKey]).
Proof.
  apply Sorted_StronglySorted; [exact md5NameLe_trans|].
  eapply Sorted_impl; [|apply gsort_Sorted].
  intros a b; apply lessEq_md5NameLe.
Qed.

(** ** Entries into [stat] *)

Definition isStatEv (e : event) : bool :=
  match e with
  | EvStat _ _ _ => true
  | _ => false
  end.

(** The entries into [stat] recorded in a state, in order. *)
Definition statCalls (w : World) : list event := filter isStatEv (trace w).

Lemma report_no_stat evs : forallb isReport evs = true -> filter isStatEv evs = [].
Proof.
  induction evs as [|e evs IH]; simpl; [reflexivity|].
  intros H; apply andb_true_iff in H as [He Hevs].
  destruct e; simpl in *; try discriminate; auto.
Qed.

(** With no budget left for them, the children are entered one after the
    other, in the order of the list. *)
Lemma statChildren_depth0 fuel g path : forall children w,
  exists w', statChildren (S fuel) g path 0 children w = Some (tt, w') /\
    statCalls w' = statCalls w ++
      map (fun child => EvStat (Clean (path ++ "/" ++ Name child)) child 0) children.
Proof.
  induction children as [|c cs IH]; intros w; unfold statChildren in *;
    cbn [forRange map].
  - exists w. now rewrite app_nil_r.
  - unfold bind at 1 2. rewrite stat_unfold.
    assert (Hleaf : forall r : error,
              match r with
              | Some permErr =>
                  Some (Some permErr, afterReport g (Clean (path ++ "/" ++ Name c)) c 0 w)
              | None => Some (None, afterReport g (Clean (path ++ "/" ++ Name c)) c 0 w)
              end = Some (r, afterReport g (Clean (path ++ "/" ++ Name c)) c 0 w)).
    { now intros []. }
    cbn [Z.eqb orb]. rewrite Hleaf. unfold ret at 1.
    destruct (IH (afterReport g (Clean (path ++ "/" ++ Name c)) c 0 w)) as [w' [Hw' Hc]].
    exists w'. split; [exact Hw'|]. rewrite Hc.
    unfold statCalls, afterReport; simpl.
    rewrite filter_app; simpl.
    rewrite (report_no_stat _ (reportEvents_isReport _ _ _ _)).
    now rewrite <- app_assoc.
Qed.

(** ** The traversal *)

Lemma reportResult_None g file :
  Md5sum (opts g) || CsvOutput (opts g) = true \/
  snd (listPermissions (rem g) (Id file)) = None ->
  reportResult g file = None.
Proof.
  unfold reportResult. intros [H|H].
  - destruct (Md5sum (opts g)); [reflexivity|]. simpl in H. now rewrite H.
  - rewrite H. now destruct (Md5sum (opts g)), (CsvOutput (opts g)).
Qed.

(** C1.  When [stat] expands a container (the file is a container, the
    budget is not 0 and the report did not end the call), the loop over the
    two channels yields the first error that is not [nil] if there is one
    before the data channel is closed, and otherwise all the children
    delivered up to the closing; a [nil] error changes nothing.  With such
    an error [e], [stat] returns [e] as soon as the listing is opened: the
    trace holds the entry, the report of the container and the opening of
    the listing, and nothing of any child. *)
Theorem stat_stream_error_aborts fuel g path file depth w e :
  IsDir file = true ->
  depth <> 0 ->
  (Md5sum (opts g) || CsvOutput (opts g) = true \/
   snd (listPermissions (rem g) (Id file)) = None) ->
  firstError (FindByParentId (rem g) (Id file) (Hidden (opts g))) = Some e ->
  (forall p acc,
      collect p acc = match firstError p with
                      | Some err => inl err
                      | None => inr (acc ++ delivered p)
                      end) /\
  (forall next acc, collect (errsRecv None next) acc = collect next acc) /\
  stat (S fuel) g path file depth w =
  Some (Some e,
        mkWorld (trace w ++ EvStat path file depth ::
                   reportEvents g path file (firstLine w) ++
                   [EvFindByParentId (Id file) (Hidden (opts g))])
                (reportFirstLine g (firstLine w))).
Proof.
  intros Hdir Hdepth Hrep Herr.
  split; [intros p acc; apply collect_spec|].
  split; [reflexivity|].
  rewrite stat_unfold, (reportResult_None _ _ Hrep), Hdir.
  apply Z.eqb_neq in Hdepth. rewrite Hdepth. cbn [negb orb].
  rewrite collect_spec, Herr.
  unfold afterListing, afterReport; simpl. now rewrite <- app_assoc.
Qed.

(** C4.  For a container whose listing is drained without error, [stat]
    returns [nil] whatever the calls on the children return, and enters
    [stat] for every child delivered; with a budget that is not negative it
    does return. *)
Theorem stat_ignores_child_errors g path file depth w children :
  IsDir file = true ->
  depth <> 0 ->
  (Md5sum (opts g) || CsvOutput (opts g) = true \/
   snd (listPermissions (rem g) (Id file)) = None) ->
  collect (FindByParentId (rem g) (Id file) (Hidden (opts g))) [] = inr children ->
  (forall fuel r w',
      stat fuel g path file depth w = Some (r, w') ->
      r = None /\
      exists evs, trace w' = trace w ++ evs /\
        forall child, In child children ->
          In (EvStat (Clean (path ++ "/" ++ Name child)) child (nextDepth depth)) evs) /\
  (0 < depth ->
   exists w', stat (S (Z.to_nat depth)) g path file depth w = Some (None, w')).
Proof.
  intros Hdir Hdepth Hrep Hcol.
  assert (Hun : forall fuel,
             stat (S fuel) g path file depth w =
             match statChildren fuel g path (nextDepth depth) (childOrder g children)
                     (afterListing g path file depth w) with
             | Some (_, w') => Some (None, w')
             | None => None
             end).
  { intros fuel. rewrite stat_unfold, (reportResult_None _ _ Hrep), Hdir.
    apply Z.eqb_neq in Hdepth. rewrite Hdepth. cbn [negb orb]. now rewrite Hcol. }
  split.
  - intros [|fuel] r w' H; [discriminate|]. rewrite Hun in H.
    destruct (statChildren _ _ _ _ _ _) as [[u w1]|] eqn:Hc; [|discriminate].
    inversion H; subst; clear H. split; [reflexivity|].
    apply statChildren_visits in Hc as [evs [Hevs Hin]].
    exists ((EvStat path file depth :: reportEvents g path file (firstLine w))
              ++ [EvFindByParentId (Id file) (Hidden (opts g))] ++ evs).
    split.
    + rewrite Hevs. unfold afterListing, afterReport; simpl.
      now rewrite <- !app_assoc.
    + intros child Hchild. apply in_or_app; right. apply in_or_app; right.
      apply Hin. unfold childOrder. destruct (Md5sum (opts g)); [|exact Hchild].
      eapply Permutation_in; [apply gsort_Permutation|exact Hchild].
  - intros Hpos.
    destruct (stat_total (S (Z.to_nat depth)) depth g path file w) as [r [w' H]];
      [lia|lia|].
    exists w'. rewrite H. rewrite Hun in H.
    destruct (statChildren _ _ _ _ _ _) as [[u w1]|]; [|discriminate].
    now inversion H.
Qed.


(** C7.  For a container that is expanded and whose listing is drained
    without error, the children collected are the children delivered, in
    the order of delivery, and [stat] goes on with the loop over them in an
    order that is: in checksum mode, a permutation of them in which every
    child comes no later than all that follow it, by checksum first and
    name second; in every other mode, the order of
    delivery itself.  With a budget of 1 the entries into [stat] recorded
    are the container and then the children, in that order. *)
Theorem stat_children_order fuel g path file depth w children :
  IsDir file = true ->
  depth <> 0 ->
  (Md5sum (opts g) || CsvOutput (opts g) = true \/
   snd (listPermissions (rem g) (Id file)) = None) ->
  collect (FindByParentId (rem g) (Id file) (Hidden (opts g))) [] = inr children ->
  children = delivered (FindByParentId (rem g) (Id file) (Hidden (opts g))) /\
  exists order,
    (Md5sum (opts g) = true ->
     Permutation children order /\ StronglySorted md5NameLe order) /\
    (Md5sum (opts g) = false -> order = children) /\
    stat (S fuel) g path file depth w =
    match statChildren fuel g path (nextDepth depth) order
            (mkWorld (trace w ++ EvStat path file depth ::
                        reportEvents g path file (firstLine w) ++
                        [EvFindByParentId (Id file) (Hidden (opts g))])
                     (reportFirstLine g (firstLine w))) with
    | Some (_, w') => Some (None, w')
    | None => None
    end /\
    (depth = 1 ->
     exists w', stat (S (S fuel)) g path file depth w = Some (None, w') /\
       statCalls w' = statCalls w ++ EvStat path file 1 ::
         map (fun child => EvStat (Clean (path ++ "/" ++ Name child)) child 0) order).
Proof.
  intros Hdir Hdepth Hrep Hcol.
  split.
  { rewrite collect_spec in Hcol. destruct (firstError _); [discriminate|].
    now inversion Hcol. }
  exists (childOrder g children).
  assert (Hw : afterListing g path file depth w =
               mkWorld (trace w ++ EvStat path file depth ::
                          reportEvents g path file (firstLine w) ++
                          [EvFindByParentId (Id file) (Hidden (opts g))])
                       (reportFirstLine g (firstLine w))).
  { unfold afterListing, afterReport; simpl. now rewrite <- app_assoc. }
  assert (Hun : forall n,
             stat (S n) g path file depth w =
             match statChildren n g path (nextDepth depth) (childOrder g children)
                     (afterListing g path file depth w) with
             | Some (_, w') => Some (None, w')
             | None => None
             end).
  { intros n. rewrite stat_unfold, (reportResult_None _ _ Hrep), Hdir.
    apply Z.eqb_neq in Hdepth. rewrite Hdepth. cbn [negb orb]. now rewrite Hcol. }
  repeat split.
  - unfold childOrder; rewrite H. apply gsort_Permutation.
  - unfold childOrder; rewrite H. apply gsort_md5Name.
  - intros H; unfold childOrder; now rewrite H.
  - rewrite <- Hw. apply Hun.
  - intros ->. rewrite Hun. change (nextDepth 1) with 0.
    destruct (statChildren_depth0 fuel g path (childOrder g children)
                (afterListing g path file 1 w)) as [w' [Hw' Hcalls]].
    exists w'. rewrite Hw'. split; [reflexivity|]. rewrite Hcalls.
    unfold statCalls. rewrite Hw; simpl. rewrite filter_app; simpl.
    rewrite filter_app; simpl.
    rewrite (report_no_stat _ (reportEvents_isReport _ _ _ _)); simpl.
    now rewrite <- app_assoc.
Qed.

(** ** The text of the report *)

Lemma string_app_nil_r (s : string) : (s ++ EmptyString)%string = s.
Proof. induction s; simpl; congruence. Qed.

Lemma string_app_assoc (a b c : string) : ((a ++ b) ++ c)%string = (a ++ b ++ c)%string.
Proof. induction a; simpl; congruence. Qed.

Lemma concat_nosep_cons x l :
  concat EmptyString (x :: l) = (x ++ concat EmptyString l)%string.
Proof. destruct l; simpl; [now rewrite string_app_nil_r|reflexivity]. Qed.

Lemma concat_nosep_app l1 l2 :
  concat EmptyString (l1 ++ l2) =
  (concat EmptyString l1 ++ concat EmptyString l2)%string.
Proof.
  induction l1 as [|x l1 IH]; [reflexivity|].
  change ((x :: l1) ++ l2) with (x :: (l1 ++ l2)).
  now rewrite !concat_nosep_cons, IH, string_app_assoc.
Qed.

(** The text of a list of events. *)
Definition textOf (evs : list event) : string := concat EmptyString (map render evs).

Lemma output_app t evs first :
  output (mkWorld (t ++ evs) first) = (concat EmptyString (map render t) ++ textOf evs)%string.
Proof. unfold output, textOf; simpl. now rewrite map_app, concat_nosep_app. Qed.

(** What a call of [stat] adds to the trace: its entry, its report, and
    then either nothing or the expansion, which starts with the opening of
    the listing. *)
Lemma stat_own_report fuel g path file depth w r w' :
  stat fuel g path file depth w = Some (r, w') ->
  exists rest,
    trace w' = trace w ++ EvStat path file depth ::
                 reportEvents g path file (firstLine w) ++ rest /\
    (rest = [] \/
     exists rest', rest = EvFindByParentId (Id file) (Hidden (opts g)) :: rest').
Proof.
  destruct fuel as [|fuel]; [discriminate|]. rewrite stat_unfold. intros H.
  assert (Hleaf : exists rest,
             trace (afterReport g path file depth w) =
             trace w ++ EvStat path file depth ::
               reportEvents g path file (firstLine w) ++ rest /\
             (rest = [] \/
              exists rest', rest = EvFindByParentId (Id file) (Hidden (opts g)) :: rest')).
  { exists []. rewrite app_nil_r. split; [reflexivity|now left]. }
  destruct (reportResult g file); [now inversion H; subst|].
  destruct ((depth =? 0) || negb (IsDir file)); [now inversion H; subst|].
  destruct (collect _ _) as [err|cs].
  - inversion H; subst. exists [EvFindByParentId (Id file) (Hidden (opts g))].
    split; [|right; now exists []].
    unfold afterListing, afterReport; simpl. now rewrite <- app_assoc.
  - destruct (statChildren _ _ _ _ _ _) as [[u w1]|] eqn:Hc; [|discriminate].
    inversion H; subst; clear H.
    apply statChildren_visits in Hc as [evs [Hevs _]].
    exists (EvFindByParentId (Id file) (Hidden (opts g)) :: evs).
    split; [|right; now exists evs].
    rewrite Hevs. unfold afterListing, afterReport; simpl.
    now rewrite <- !app_assoc.
Qed.

(** [s] in a field of at least [n] runes, blanks after it. *)
Definition padRight (n : nat) (s : string) : string :=
  (s ++ spaces (n - RuneCountInString s))%string.

(** [s] in a field of at least [n] runes, blanks before it. *)
Definition padLeft (n : nat) (s : string) : string :=
  (spaces (n - RuneCountInString s) ++ s)%string.

(** The line of checksum mode. *)
Definition checksumLine (relToRootPath : string) (file : File) : string :=
  (padLeft 32 (Md5Checksum file) ++ "  " ++ TrimPrefix relToRootPath "/" ++ nl)%string.

Lemma Sprintf_checksum md5 path :
  Sprintf ("%32s  %s" ++ nl) [VString md5; VString path] =
  (padLeft 32 md5 ++ "  " ++ path ++ nl)%string.
Proof.
  reflexivity.
Qed.

(** The row of CSV mode for one permission. *)
Definition csvRow (file : File) (perm : drive.Permission) : string :=
  (padRight 60 (Name file) ++ "," ++ padRight 10 (dirTypeOf file) ++ "," ++
   padRight 25 (drive.Name perm) ++ "," ++ padRight 25 (drive.EmailAddress perm) ++
   tab ++ tab ++
   "," ++ padRight 25 (drive.Role perm) ++
   "," ++ padRight 25 (drive.Type' perm) ++ nl)%string.

Lemma Sprintf_csv_head a b c d :
  Sprintf ("%-60v,%-10v,%-25v,%-25v" ++ tab ++ tab)
          [VString a; VString b; VString c; VString d] =
  (padRight 60 a ++ "," ++ padRight 10 b ++ "," ++ padRight 25 c ++ "," ++
   padRight 25 d ++ tab ++ tab)%string.
Proof. reflexivity. Qed.

Lemma Sprintf_csv_cell x :
  Sprintf ",%-25v" [VString x] = ("," ++ padRight 25 x)%string.
Proof.
  unfold Sprintf, padRight. cbn -[Nat.sub]. unfold padString.
  now rewrite string_app_nil_r.
Qed.

Lemma filePermission_text perm file :
  textOf (filePermissionEvents perm file) = csvRow file perm.
Proof.
  unfold textOf, filePermissionEvents, csvRow.
  cbn [map render]. rewrite !concat_nosep_cons.
  rewrite Sprintf_csv_head, !Sprintf_csv_cell.
  change (Sprintf nl []) with nl. change (concat EmptyString []) with EmptyString.
  now rewrite string_app_nil_r, !string_app_assoc.
Qed.

(** C3, as the code has it.  In checksum mode the report of a file with a
    checksum that is not empty is one call of the logger, whose text is
    the checksum right-aligned in a field of at least 32 runes (blanks
    before it, none after, nothing cut off), two spaces, the path without
    one leading separator, and a newline; with an empty checksum the report
    is empty.  On a file that is not expanded this is all [stat] writes. *)
Theorem stat_checksum_line g path file depth w :
  Md5sum (opts g) = true ->
  (forall fuel r w',
      stat fuel g path file depth w = Some (r, w') ->
      exists own rest,
        trace w' = trace w ++ EvStat path file depth :: own ++ rest /\
        (rest = [] \/
         exists rest', rest = EvFindByParentId (Id file) (Hidden (opts g)) :: rest') /\
        (Md5Checksum file = EmptyString -> own = []) /\
        (Md5Checksum file <> EmptyString ->
         exists format args,
           own = [EvLogf format args] /\
           Sprintf format args =
           (spaces (32 - RuneCountInString (Md5Checksum file)) ++ Md5Checksum file ++
            "  " ++ TrimPrefix path "/" ++ nl)%string)) /\
  (forall fuel,
      depth = 0 \/ IsDir file = false ->
      exists w',
        stat (S fuel) g path file depth w = Some (None, w') /\
        output w' =
        (output w ++
         if (Md5Checksum file =? EmptyString)%string then EmptyString
         else spaces (32 - RuneCountInString (Md5Checksum file)) ++ Md5Checksum file ++
              "  " ++ TrimPrefix path "/" ++ nl)%string).
Proof.
  intros Hmd5. split.
  - intros fuel r w' H. apply stat_own_report in H as [rest [Ht Hrest]].
    exists (reportEvents g path file (firstLine w)), rest.
    split; [exact Ht|]. split; [exact Hrest|].
    unfold reportEvents, checksumEvents. rewrite Hmd5.
    destruct (Md5Checksum file =? EmptyString)%string eqn:E.
    + split; [reflexivity|]. apply String.eqb_eq in E. congruence.
    + apply String.eqb_neq in E. split; [congruence|]. intros _.
      eexists _, _. split; [reflexivity|].
      rewrite Sprintf_checksum. unfold padLeft. apply string_app_assoc.
  - intros fuel Hleaf. rewrite stat_unfold.
    assert (Hl : (depth =? 0) || negb (IsDir file) = true).
    { destruct Hleaf as [->| ->]; [reflexivity|apply orb_true_r]. }
    rewrite Hl. unfold reportResult. rewrite Hmd5.
    eexists; split; [reflexivity|].
    unfold afterReport. rewrite output_app. unfold output. f_equal.
    unfold textOf, reportEvents, checksumEvents. rewrite Hmd5.
    cbn [map render]. rewrite concat_nosep_cons. cbn [append].
    destruct (Md5Checksum file =? EmptyString)%string; [reflexivity|].
    cbn [map render concat].
    rewrite Sprintf_checksum. unfold padLeft. apply string_app_assoc.
Qed.

(** C9, as the code has it.  [prettyFilePermission] writes one row: the
    name of the file, its type tag, the name of the permission and its
    address, each left-aligned in a field of at least 60, 10, 25 and 25
    runes (blanks after the value) and separated by commas, then two tab
    characters, then a comma and the role, a comma and the account type,
    each in a field of at least 25 runes, and a newline.  In CSV mode the
    report of a file is the fetch of its permissions, the header if it was
    not written before, and one such row for every permission, in order. *)
Theorem csv_rows file :
  (forall perm w,
      exists w',
        prettyFilePermission perm file w = Some (tt, w') /\
        firstLine w' = firstLine w /\
        output w' =
        (output w ++
         padRight 60 (Name file) ++ "," ++ padRight 10 (dirTypeOf file) ++ "," ++
         padRight 25 (drive.Name perm) ++ "," ++ padRight 25 (drive.EmailAddress perm) ++
         tab ++ tab ++
         "," ++ padRight 25 (drive.Role perm) ++
         "," ++ padRight 25 (drive.Type' perm) ++ nl)%string) /\
  (forall g path depth fuel w r w',
      Md5sum (opts g) = false -> CsvOutput (opts g) = true ->
      stat fuel g path file depth w = Some (r, w') ->
      exists rest,
        trace w' = trace w ++ EvStat path file depth ::
          EvListPermissions (Id file) ::
          (if firstLine w then [EvLogf csvHeader []] else []) ++
          flat_map (fun perm => filePermissionEvents perm file)
                   (fst (listPermissions (rem g) (Id file))) ++ rest) /\
  (forall perm, textOf (filePermissionEvents perm file) = csvRow file perm).
Proof.
  split; [|split].
  - intros perm w. rewrite prettyFilePermission_emits.
    eexists; split; [reflexivity|]. split; [reflexivity|].
    rewrite output_app, filePermission_text. reflexivity.
  - intros g path depth fuel w r w' Hmd5 Hcsv H.
    apply stat_own_report in H as [rest [Ht _]]. exists rest.
    rewrite Ht. unfold reportEvents. rewrite Hmd5, Hcsv.
    cbn [app]. now rewrite <- app_assoc.
  - intros perm. apply filePermission_text.
Qed.








(** ** The header of CSV mode *)

Definition csvRowFormat : string := ("%-60v,%-10v,%-25v,%-25v" ++ tab ++ tab)%string.

(** The call of the logger that writes the header. *)
Definition isHeader (e : event) : bool :=
  match e with
  | EvLogf format [] => (format =? csvHeader)%string
  | _ => false
  end.

(** The call of the logger that starts a row of permissions. *)
Definition isCsvRow (e : event) : bool :=
  match e with
  | EvLogf format _ => (format =? csvRowFormat)%string
  | _ => false
  end.

(** No header in [evs] once one was seen, and no row before one is. *)
Fixpoint headerFirst (seen : bool) (evs : list event) : bool :=
  match evs with
  | [] => true
  | e :: rest =>
      if isHeader e then negb seen && headerFirst true rest
      else if isCsvRow e then seen && headerFirst seen rest
      else headerFirst seen rest
  end.

Definition seenAfter (seen : bool) (evs : list event) : bool :=
  seen || existsb isHeader evs.

Lemma seenAfter_app s a b : seenAfter s (a ++ b) = seenAfter (seenAfter s a) b.
Proof. unfold seenAfter. now rewrite existsb_app, orb_assoc. Qed.

Lemma headerFirst_app a : forall s b,
  headerFirst s (a ++ b) = headerFirst s a && headerFirst (seenAfter s a) b.
Proof.
  unfold seenAfter.
  induction a as [|e a IH]; intros s b; simpl.
  - now rewrite orb_false_r.
  - destruct (isHeader e); simpl.
    + rewrite IH. simpl. rewrite orb_true_r. now rewrite andb_assoc.
    + destruct (isCsvRow e); rewrite IH; [now rewrite andb_assoc|reflexivity].
Qed.

Lemma headerFirst_seen evs :
  existsb isHeader evs = false -> headerFirst true evs = true.
Proof.
  induction evs as [|e evs IH]; simpl; [reflexivity|].
  intros H; apply orb_false_iff in H as [He Hevs]. rewrite He.
  destruct (isCsvRow e); simpl; auto.
Qed.

Lemma headerFirst_neutral s evs :
  forallb (fun e => negb (isHeader e || isCsvRow e)) evs = true ->
  headerFirst s evs = true /\ existsb isHeader evs = false.
Proof.
  induction evs as [|e evs IH]; simpl; [auto|].
  intros H; apply andb_true_iff in H as [He Hevs].
  apply negb_true_iff, orb_false_iff in He as [-> ->]. simpl. auto.
Qed.

(** [w'] comes after [w]: the trace has grown, by events that respect the
    header, and [firstLine] is unset exactly when a header was written. *)
Definition follows (w w' : World) : Prop :=
  exists evs,
    trace w' = trace w ++ evs /\
    headerFirst (negb (firstLine w)) evs = true /\
    negb (firstLine w') = seenAfter (negb (firstLine w)) evs.

Lemma follows_refl w : follows w w.
Proof.
  exists []. rewrite app_nil_r. unfold seenAfter; simpl.
  now rewrite orb_false_r.
Qed.

Lemma follows_trans w1 w2 w3 : follows w1 w2 -> follows w2 w3 -> follows w1 w3.
Proof.
  intros [e1 [Ht1 [Hh1 Hs1]]] [e2 [Ht2 [Hh2 Hs2]]].
  exists (e1 ++ e2). rewrite Ht2, Ht1, <- app_assoc. split; [reflexivity|].
  rewrite headerFirst_app, seenAfter_app, Hh1, <- Hs1, Hh2. auto.
Qed.

Lemma follows_neutral w evs :
  forallb (fun e => negb (isHeader e || isCsvRow e)) evs = true ->
  follows w (mkWorld (trace w ++ evs) (firstLine w)).
Proof.
  intros H. apply (headerFirst_neutral (negb (firstLine w))) in H as [Hh He].
  exists evs. simpl. unfold seenAfter. rewrite Hh, He, orb_false_r. auto.
Qed.

Lemma rows_no_header file perms :
  existsb isHeader (flat_map (fun perm => filePermissionEvents perm file) perms) = false.
Proof. induction perms as [|perm perms IH]; simpl; [reflexivity|exact IH]. Qed.

Lemma follows_report g path file w :
  follows w (mkWorld (trace w ++ reportEvents g path file (firstLine w))
                     (reportFirstLine g (firstLine w))).
Proof.
  unfold reportEvents, reportFirstLine, checksumEvents.
  destruct (Md5sum (opts g)).
  - apply follows_neutral. now destruct (Md5Checksum file =? EmptyString)%string.
  - destruct (CsvOutput (opts g)).
    + eexists. split; [reflexivity|]. cbn [firstLine].
      pose proof (rows_no_header file (fst (listPermissions (rem g) (Id file)))) as Hr.
      pose proof (headerFirst_seen _ Hr) as Hs.
      unfold seenAfter. destruct (firstLine w); simpl; rewrite ?Hs, ?Hr; auto.
    + apply follows_neutral. cbn [forallb].
      change (negb (isHeader (EvListPermissions (Id file))
                    || isCsvRow (EvListPermissions (Id file)))) with true.
      cbn [andb]. rewrite forallb_app. apply andb_true_intro; split.
      * unfold fileStatEvents. cbn [forallb]. apply andb_true_intro; split; [reflexivity|].
        rewrite forallb_forall. intros e He.
        apply in_map_iff in He as [kv [<- _]]. reflexivity.
      * destruct (snd _); [reflexivity|]. apply forallb_flat_map. reflexivity.
Qed.

Lemma follows_event w e :
  isHeader e || isCsvRow e = false ->
  follows w (mkWorld (trace w ++ [e]) (firstLine w)).
Proof. intros H. apply follows_neutral. simpl. now rewrite H. Qed.

Lemma follows_afterReport g path file depth w :
  follows w (afterReport g path file depth w).
Proof.
  eapply follows_trans; [apply (follows_event w (EvStat path file depth)); reflexivity|].
  pose proof (follows_report g path file
                (mkWorld (trace w ++ [EvStat path file depth]) (firstLine w))) as H.
  cbn [trace firstLine] in H. rewrite <- app_assoc in H. exact H.
Qed.

Lemma follows_afterListing g path file depth w :
  follows w (afterListing g path file depth w).
Proof.
  eapply follows_trans; [apply (follows_afterReport g path file depth)|].
  apply (follows_event (afterReport g path file depth w)
           (EvFindByParentId (Id file) (Hidden (opts g)))). reflexivity.
Qed.

Lemma statChildren_follows fuel g path depth :
  (forall p f d w r w', stat fuel g p f d w = Some (r, w') -> follows w w') ->
  forall children w u w',
    statChildren fuel g path depth children w = Some (u, w') -> follows w w'.
Proof.
  intros IH. unfold statChildren.
  induction children as [|c l IHl]; intros w u w' H; cbn [forRange] in H.
  - inversion H; subst. apply follows_refl.
  - unfold bind at 1 2 in H.
    destruct (stat fuel g _ c _ w) as [[r1 w2]|] eqn:Hs; [|discriminate].
    eapply follows_trans; [apply (IH _ _ _ _ _ _ Hs)|apply (IHl _ _ _ H)].
Qed.

Lemma stat_follows fuel : forall g path file depth w r w',
  stat fuel g path file depth w = Some (r, w') -> follows w w'.
Proof.
  induction fuel as [|fuel IH]; intros g path file depth w r w' H; [discriminate|].
  rewrite stat_unfold in H.
  destruct (reportResult g file).
  { inversion H; subst. apply follows_afterReport. }
  destruct ((depth =? 0) || negb (IsDir file)).
  { inversion H; subst. apply follows_afterReport. }
  destruct (collect _ _) as [err|cs].
  { inversion H; subst. apply follows_afterListing. }
  destruct (statChildren _ _ _ _ _ _) as [[u w1]|] eqn:Hc; [|discriminate].
  inversion H; subst; clear H.
  eapply follows_trans; [apply follows_afterListing|].
  eapply statChildren_follows; [|exact Hc]. intros p f d; apply IH.
Qed.

Lemma statfnLoop_follows fuel g fname fn : forall sources err w r w',
  statfnLoop fuel g fname fn sources err w = Some (r, w') -> follows w w'.
Proof.
  induction sources as [|src rest IH]; intros err w r w' H; cbn [statfnLoop] in H.
  - inversion H; subst. apply follows_refl.
  - unfold bind at 1 in H. cbn [emit] in H.
    eapply follows_trans; [apply (follows_event w (EvResolve src)); reflexivity|].
    destruct (fn src) as [fErr|f].
    + apply (IH _ _ _ _ H).
    + unfold bind at 1 in H.
      destruct (stat fuel g _ f _ _) as [[[fErr|] w1]|] eqn:Hs; [| |discriminate];
        (eapply follows_trans; [apply (stat_follows _ _ _ _ _ _ _ _ Hs)|apply (IH _ _ _ _ H)]).
Qed.

(** The states of a process: it starts with [firstLine] set and an empty
    trace, and runs [stat] and [statfn] any number of times, with any
    options and any remote. *)
Inductive reachable : World -> Prop :=
| reach_init : reachable initWorld
| reach_stat fuel g path file depth w r w' :
    reachable w -> stat fuel g path file depth w = Some (r, w') -> reachable w'
| reach_statfn fuel g fname fn w r w' :
    reachable w -> statfn fuel g fname fn w = Some (r, w') -> reachable w'.

Lemma reachable_follows w : reachable w -> follows initWorld w.
Proof.
  induction 1 as [|fuel g path file depth w r w' _ IH H|fuel g fname fn w r w' _ IH H].
  - apply follows_refl.
  - eapply follows_trans; [exact IH|apply (stat_follows _ _ _ _ _ _ _ _ H)].
  - eapply follows_trans; [exact IH|apply (statfnLoop_follows _ _ _ _ _ _ _ _ _ H)].
Qed.

Lemma headerFirst_count evs : forall s,
  headerFirst s evs = true ->
  List.length (filter isHeader evs) =
  (if seenAfter s evs then if s then 0 else 1 else 0)%nat.
Proof.
  unfold seenAfter.
  induction evs as [|e evs IH]; intros s H; simpl in *.
  - now destruct s.
  - destruct (isHeader e) eqn:He; simpl.
    + apply andb_true_iff in H as [Hs H]. apply negb_true_iff in Hs; subst s.
      rewrite (IH true H). reflexivity.
    + destruct (isCsvRow e).
      * apply andb_true_iff in H as [_ H]. exact (IH s H).
      * exact (IH s H).
Qed.

Lemma isCsvRow_not_header e : isCsvRow e = true -> isHeader e = false.
Proof.
  destruct e as [format args| | | |]; simpl; try discriminate.
  intros H. apply String.eqb_eq in H; subst. now destruct args.
Qed.

(** C6.  [firstLine] starts set.  In every state a process can reach,
    whatever the number of invocations, files and permissions, the header
    of CSV mode has been written at most once, and exactly once when
    [firstLine] is unset; every row of permissions in the trace comes after
    the header; and after any call of [stat] in CSV mode that returns, the
    header has been written exactly once. *)
Theorem csv_header_once w :
  reachable w ->
  firstLine initWorld = true /\
  (List.length (filter isHeader (trace w)) <= 1)%nat /\
  (firstLine w = false <-> List.length (filter isHeader (trace w)) = 1%nat) /\
  (forall pre e post,
      trace w = pre ++ e :: post -> isCsvRow e = true -> existsb isHeader pre = true) /\
  (forall fuel g path file depth r w',
      Md5sum (opts g) = false -> CsvOutput (opts g) = true ->
      stat fuel g path file depth w = Some (r, w') ->
      firstLine w' = false /\ List.length (filter isHeader (trace w')) = 1%nat).
Proof.
  assert (Hinv : forall w0, reachable w0 ->
             headerFirst false (trace w0) = true /\
             negb (firstLine w0) = existsb isHeader (trace w0)).
  { intros w0 Hr. apply reachable_follows in Hr as [evs [Ht [Hh Hs]]].
    simpl in Ht, Hh, Hs. rewrite Ht. auto. }
  assert (Hcount : forall w0, reachable w0 ->
             List.length (filter isHeader (trace w0)) =
             (if firstLine w0 then 0 else 1)%nat).
  { intros w0 Hr. destruct (Hinv w0 Hr) as [Hh Hs].
    rewrite (headerFirst_count _ _ Hh). unfold seenAfter; simpl.
    rewrite <- Hs. now destruct (firstLine w0). }
  intros Hr. split; [reflexivity|].
  split; [rewrite (Hcount w Hr); destruct (firstLine w); lia|].
  split; [rewrite (Hcount w Hr); destruct (firstLine w); split; congruence|].
  split.
  - intros pre e post Ht He. destruct (Hinv w Hr) as [Hh _].
    rewrite Ht, headerFirst_app in Hh. apply andb_true_iff in Hh as [_ Hh].
    cbn [headerFirst] in Hh. rewrite (isCsvRow_not_header e He), He in Hh.
    apply andb_true_iff in Hh as [Hseen _]. exact Hseen.
  - intros fuel g path file depth r w' Hmd5 Hcsv H.
    assert (Hr' : reachable w') by (eapply reach_stat; eassumption).
    assert (Hfl : firstLine w' = false).
    { destruct (Hinv w Hr) as [_ Hs]. destruct (Hinv w' Hr') as [_ Hs'].
      apply stat_own_report in H as [rest [Ht _]].
      rewrite Ht, existsb_app in Hs'. unfold reportEvents in Hs'.
      rewrite Hmd5, Hcsv in Hs'. rewrite <- Hs in Hs'.
      destruct (firstLine w); simpl in Hs'; now apply negb_true_iff. }
    split; [exact Hfl|]. now rewrite (Hcount w' Hr'), Hfl.
Qed.

(** ** The loop over the sources *)

(** What [stat] returns, when it returns. *)
Definition statResult (g : Commands) (file : File) (depth : Z) : error :=
  match reportResult g file with
  | Some permErr => Some permErr
  | None =>
      if (depth =? 0) || negb (IsDir file) then None
      else match collect (FindByParentId (rem g) (Id file) (Hidden (opts g))) [] with
           | inl err => Some err
           | inr _ => None
           end
  end.

Lemma stat_result fuel g path file depth w r w' :
  stat fuel g path file depth w = Some (r, w') -> r = statResult g file depth.
Proof.
  destruct fuel as [|fuel]; [discriminate|]. rewrite stat_unfold. unfold statResult.
  destruct (reportResult g file); [now inversion 1|].
  destruct ((depth =? 0) || negb (IsDir file)); [now inversion 1|].
  destruct (collect _ _); [now inversion 1|].
  destruct (statChildren _ _ _ _ _ _) as [[u w1]|]; [now inversion 1|discriminate].
Qed.

(** The path [statfn] gives to [stat] for the source [src] resolved to [f]. *)
Definition displaySrc (g : Commands) (src : string) (f : File) : string :=
  if Md5sum (opts g)
  then (if IsDir f && rootLike (Path (opts g)) then EmptyString else Name f)
  else src.

(** The error composed so far, after the failure [fErr] of [src]. *)
Definition recordFailure (fname : string) (err : error) (src : string) (fErr : Error) : error :=
  copyErrStatusCode (reComposeError err (failureMsg fname src fErr)) (Some fErr).

(** The failure of one source, with the name it is reported under. *)
Definition sourceFailure (g : Commands) (fn : string -> Error + File) (src : string)
    : option (string * Error) :=
  match fn src with
  | inl fErr => Some (src, fErr)
  | inr f =>
      match statResult g f (Depth (opts g)) with
      | Some fErr => Some (displaySrc g src f, fErr)
      | None => None
      end
  end.

Definition aggregateStep (g : Commands) (fname : string) (fn : string -> Error + File)
    (err : error) (src : string) : error :=
  match sourceFailure g fn src with
  | Some (s, fErr) => recordFailure fname err s fErr
  | None => err
  end.

Definition aggregate (g : Commands) (fname : string) (fn : string -> Error + File)
    (sources : list string) (err : error) : error :=
  fold_left (aggregateStep g fname fn) sources err.

Definition isResolve (e : event) : bool :=
  match e with
  | EvResolve _ => true
  | _ => false
  end.

Lemma statChildren_no_resolve fuel g path depth :
  (forall p f d w r w', stat fuel g p f d w = Some (r, w') ->
     exists evs, trace w' = trace w ++ evs /\ filter isResolve evs = []) ->
  forall children w u w',
    statChildren fuel g path depth children w = Some (u, w') ->
    exists evs, trace w' = trace w ++ evs /\ filter isResolve evs = [].
Proof.
  intros IH. unfold statChildren.
  induction children as [|c l IHl]; intros w u w' H; cbn [forRange] in H.
  - inversion H; subst. exists []. now rewrite app_nil_r.
  - unfold bind at 1 2 in H.
    destruct (stat fuel g _ c _ w) as [[r1 w2]|] eqn:Hs; [|discriminate].
    apply IH in Hs as [e1 [Ht1 Hf1]]. apply IHl in H as [e2 [Ht2 Hf2]].
    exists (e1 ++ e2). rewrite Ht2, Ht1, <- app_assoc, filter_app, Hf1, Hf2. auto.
Qed.

Lemma report_no_resolve evs : forallb isReport evs = true -> filter isResolve evs = [].
Proof.
  induction evs as [|e evs IH]; simpl; [reflexivity|].
  intros H; apply andb_true_iff in H as [He Hevs].
  destruct e; simpl in *; try discriminate; auto.
Qed.

Lemma stat_no_resolve fuel : forall g path file depth w r w',
  stat fuel g path file depth w = Some (r, w') ->
  exists evs, trace w' = trace w ++ evs /\ filter isResolve evs = [].
Proof.
  induction fuel as [|fuel IH]; intros g path file depth w r w' H; [discriminate|].
  rewrite stat_unfold in H.
  pose proof (report_no_resolve _ (reportEvents_isReport g path file (firstLine w))) as Hrep.
  assert (Hleaf : exists evs,
             trace (afterReport g path file depth w) = trace w ++ evs /\
             filter isResolve evs = []).
  { eexists. split; [reflexivity|]. simpl. exact Hrep. }
  assert (Hlist : exists evs,
             trace (afterListing g path file depth w) = trace w ++ evs /\
             filter isResolve evs = []).
  { exists ((EvStat path file depth :: reportEvents g path file (firstLine w))
              ++ [EvFindByParentId (Id file) (Hidden (opts g))]).
    split; [unfold afterListing, afterReport; simpl; now rewrite <- app_assoc|].
    rewrite filter_app. simpl. now rewrite Hrep. }
  destruct (reportResult g file); [now inversion H; subst|].
  destruct ((depth =? 0) || negb (IsDir file)); [now inversion H; subst|].
  destruct (collect _ _) as [err|cs]; [now inversion H; subst|].
  destruct (statChildren _ _ _ _ _ _) as [[u w1]|] eqn:Hc; [|discriminate].
  inversion H; subst; clear H.
  apply (statChildren_no_resolve fuel g path _ (IH g)) in Hc as [e2 [Ht2 Hf2]].
  destruct Hlist as [e1 [Ht1 Hf1]].
  exists (e1 ++ e2). rewrite Ht2, Ht1, <- app_assoc, filter_app, Hf1, Hf2. auto.
Qed.

Lemma statfnLoop_app fuel g fname fn l1 : forall l2 err w,
  statfnLoop fuel g fname fn (l1 ++ l2) err w =
  match statfnLoop fuel g fname fn l1 err w with
  | Some (err1, w1) => statfnLoop fuel g fname fn l2 err1 w1
  | None => None
  end.
Proof.
  induction l1 as [|src l1 IH]; intros l2 err w; [reflexivity|].
  cbn [app statfnLoop]. unfold bind at 1 3. cbn [emit].
  destruct (fn src) as [fErr|f]; [apply IH|].
  unfold bind at 1 2.
  destruct (stat fuel g _ f _ _) as [[[fErr|] w1]|]; [apply IH|apply IH|reflexivity].
Qed.

(** The loop resolves every source, in order, and returns the error
    composed from the failures. *)
Lemma statfnLoop_spec fuel g fname fn : forall sources err w r w',
  statfnLoop fuel g fname fn sources err w = Some (r, w') ->
  r = aggregate g fname fn sources err /\
  exists evs, trace w' = trace w ++ evs /\
              filter isResolve evs = map EvResolve sources.
Proof.
  induction sources as [|src rest IH]; intros err w r w' H; cbn [statfnLoop] in H.
  - inversion H; subst. split; [reflexivity|]. exists []. now rewrite app_nil_r.
  - unfold bind at 1 in H. cbn [emit] in H.
    unfold aggregate. cbn [fold_left]. unfold aggregateStep at 2, sourceFailure.
    destruct (fn src) as [fErr|f].
    + apply IH in H as [Hr [evs [Ht Hf]]]. split; [exact Hr|].
      exists (EvResolve src :: evs). cbn [trace] in Ht.
      rewrite Ht, <- app_assoc. split; [reflexivity|]. simpl. now rewrite Hf.
    + unfold bind at 1 in H.
      destruct (stat fuel g _ f _ _) as [[r1 w1]|] eqn:Hs; [|discriminate].
      pose proof (stat_result _ _ _ _ _ _ _ _ Hs) as Hr1.
      apply stat_no_resolve in Hs as [e1 [Ht1 Hf1]]. cbn [trace] in Ht1.
      unfold displaySrc. rewrite <- Hr1.
      assert (Hgoal : forall err0,
                 statfnLoop fuel g fname fn rest err0 w1 = Some (r, w') ->
                 r = fold_left (aggregateStep g fname fn) rest err0 /\
                 exists evs, trace w' = trace w ++ evs /\
                   filter isResolve evs = map EvResolve (src :: rest)).
      { intros err0 H0. apply IH in H0 as [Hr [evs [Ht Hf]]]. split; [exact Hr|].
        exists (EvResolve src :: e1 ++ evs).
        rewrite Ht, Ht1, <- !app_assoc. split; [reflexivity|].
        simpl. now rewrite filter_app, Hf1, Hf. }
      destruct r1 as [fErr|]; apply Hgoal; exact H.
Qed.

Lemma statfnLoop_total fuel g fname fn :
  0 <= Depth (opts g) -> (Z.to_nat (Depth (opts g)) < fuel)%nat ->
  forall sources err w, exists r w',
    statfnLoop fuel g fname fn sources err w = Some (r, w').
Proof.
  intros Hd Hf. induction sources as [|src rest IH]; intros err w; cbn [statfnLoop].
  - unfold ret. eauto.
  - unfold bind at 1. cbn [emit]. destruct (fn src) as [fErr|f]; [apply IH|].
    unfold bind at 1.
    match goal with
    | |- context [stat fuel g ?p f ?d ?w0] =>
        destruct (stat_total fuel d g p f w0 Hd Hf) as [r1 [w1 ->]]
    end.
    destruct r1; apply IH.
Qed.

(** [t] occurs in [s]. *)
Definition contains (s t : string) : Prop :=
  exists pre post, s = (pre ++ t ++ post)%string.

(** The source [src] fails with [fErr], and is reported under the name
    [s]: its resolution fails, or [stat] on the file it resolves to returns
    [fErr]. *)
Definition failsWith (fuel : nat) (g : Commands) (fn : string -> Error + File)
    (src s : string) (fErr : Error) : Prop :=
  (fn src = inl fErr /\ s = src) \/
  (exists f w0 w0',
      fn src = inr f /\ s = displaySrc g src f /\
      stat fuel g s f (Depth (opts g)) w0 = Some (Some fErr, w0')).

(** The source [src] resolves, and [stat] on the file returns [nil]. *)
Definition succeeds (fuel : nat) (g : Commands) (fn : string -> Error + File)
    (src : string) : Prop :=
  exists f w0 w0',
    fn src = inr f /\
    stat fuel g (displaySrc g src f) f (Depth (opts g)) w0 = Some (None, w0').

Lemma failsWith_sourceFailure fuel g fn src s fErr :
  failsWith fuel g fn src s fErr -> sourceFailure g fn src = Some (s, fErr).
Proof.
  unfold sourceFailure. intros [[-> ->]|[f [w0 [w0' [-> [-> H]]]]]]; [reflexivity|].
  apply stat_result in H. now rewrite <- H.
Qed.

Lemma succeeds_sourceFailure fuel g fn src :
  succeeds fuel g fn src -> sourceFailure g fn src = None.
Proof.
  unfold sourceFailure. intros [f [w0 [w0' [-> H]]]].
  apply stat_result in H. now rewrite <- H.
Qed.

Lemma recordFailure_spec fname err s fErr :
  exists e, recordFailure fname err s fErr = Some e /\
    errCode e = errCode fErr /\
    exists pre, errText e = (pre ++ failureMsg fname s fErr)%string.
Proof.
  unfold recordFailure, reComposeError, copyErrStatusCode.
  destruct err as [e0|]; eexists; (split; [reflexivity|]); (split; [reflexivity|]); simpl.
  - exists (errText e0 ++ nl)%string. now rewrite string_app_assoc.
  - now exists EmptyString.
Qed.

Lemma aggregate_grows g fname fn sources : forall e,
  exists e', aggregate g fname fn sources (Some e) = Some e' /\
    exists post, errText e' = (errText e ++ post)%string.
Proof.
  unfold aggregate.
  induction sources as [|src rest IH]; intros e; cbn [fold_left].
  - exists e. split; [reflexivity|]. exists EmptyString. now rewrite string_app_nil_r.
  - unfold aggregateStep at 2. destruct (sourceFailure g fn src) as [[s fErr]|]; [|apply IH].
    unfold recordFailure, reComposeError, copyErrStatusCode.
    match goal with
    | |- context [fold_left _ rest (Some ?e1)] => destruct (IH e1) as [e' [He' [post Hp]]]
    end.
    exists e'. split; [exact He'|]. simpl in Hp. rewrite Hp.
    eexists. rewrite !string_app_assoc. reflexivity.
Qed.

Lemma aggregate_unchanged g fname fn sources err :
  (forall x, In x sources -> sourceFailure g fn x = None) ->
  aggregate g fname fn sources err = err.
Proof.
  unfold aggregate. revert err.
  induction sources as [|src rest IH]; intros err H; cbn [fold_left]; [reflexivity|].
  unfold aggregateStep at 2. rewrite (H src (or_introl eq_refl)).
  apply IH. intros x Hx. apply H. now right.
Qed.

Lemma aggregate_failure g fname fn l1 src l2 s fErr :
  sourceFailure g fn src = Some (s, fErr) ->
  exists e1 e,
    aggregate g fname fn (l1 ++ src :: l2) None = aggregate g fname fn l2 (Some e1) /\
    errCode e1 = errCode fErr /\
    aggregate g fname fn l2 (Some e1) = Some e /\
    contains (errText e) (failureMsg fname s fErr).
Proof.
  intros Hs. unfold aggregate at 1. rewrite fold_left_app. cbn [fold_left].
  unfold aggregateStep at 2. rewrite Hs.
  destruct (recordFailure_spec fname (fold_left (aggregateStep g fname fn) l1 None) s fErr)
    as [e1 [He1 [Hc [pre Hpre]]]].
  rewrite He1.
  destruct (aggregate_grows g fname fn l2 e1) as [e [He [post Hpost]]].
  exists e1, e. split; [reflexivity|]. split; [exact Hc|]. split; [exact He|].
  exists pre, post. now rewrite Hpost, Hpre, string_app_assoc.
Qed.

(** A source that resolves is given to [stat], after the sources before
    it and before the sources after it. *)
Lemma statfnLoop_source fuel g fname fn l1 src l2 f err w r w' :
  fn src = inr f ->
  statfnLoop fuel g fname fn (l1 ++ src :: l2) err w = Some (r, w') ->
  exists w1 r1 w2 pre post,
    stat fuel g (displaySrc g src f) f (Depth (opts g)) w1 = Some (r1, w2) /\
    trace w1 = trace w ++ pre ++ [EvResolve src] /\
    trace w' = trace w2 ++ post.
Proof.
  intros Hfn H. rewrite statfnLoop_app in H.
  destruct (statfnLoop fuel g fname fn l1 err w) as [[e1 w1]|] eqn:H1; [|discriminate].
  apply statfnLoop_spec in H1 as [_ [pre [Hpre _]]].
  cbn [statfnLoop] in H. unfold bind at 1 in H. cbn [emit] in H. rewrite Hfn in H.
  unfold bind at 1 in H. fold (displaySrc g src f) in H.
  destruct (stat fuel g _ f _ _) as [[r1 w2]|] eqn:Hs; [|discriminate].
  assert (Hpost : exists post, trace w' = trace w2 ++ post).
  { destruct r1; apply statfnLoop_spec in H as [_ [post [Hp _]]]; eauto. }
  destruct Hpost as [post Hpost].
  eexists _, r1, w2, pre, post. split; [exact Hs|].
  split; [|exact Hpost]. cbn [trace]. now rewrite Hpre, <- app_assoc.
Qed.

(** C2.  [statfn] resolves every source, in order, whatever the sources
    before it did.  The error returned holds the message of every failure,
    of a resolution or of [stat]; its status code is that of the last
    failure; it is [nil] when no source fails.  A source that resolves is
    given to [stat], and the whole of that call is in the trace.  With a
    budget that is not negative [statfn] returns. *)
Theorem statfn_aggregates fuel g fname fn w :
  (0 <= Depth (opts g) -> (Z.to_nat (Depth (opts g)) < fuel)%nat ->
   exists r w', statfn fuel g fname fn w = Some (r, w')) /\
  (forall s fErr,
      failureMsg fname s fErr =
      (fname ++ ": " ++ s ++ " err: " ++ errText fErr ++ nl)%string) /\
  (forall r w',
      statfn fuel g fname fn w = Some (r, w') ->
      (exists evs, trace w' = trace w ++ evs /\
                   filter isResolve evs = map EvResolve (Sources (opts g))) /\
      (forall src s fErr,
          In src (Sources (opts g)) -> failsWith fuel g fn src s fErr ->
          exists e, r = Some e /\ contains (errText e) (failureMsg fname s fErr)) /\
      (forall l1 src l2 s fErr,
          Sources (opts g) = l1 ++ src :: l2 ->
          failsWith fuel g fn src s fErr ->
          (forall x, In x l2 -> succeeds fuel g fn x) ->
          exists e, r = Some e /\ errCode e = errCode fErr) /\
      ((forall x, In x (Sources (opts g)) -> succeeds fuel g fn x) -> r = None) /\
      (forall l1 src l2 f,
          Sources (opts g) = l1 ++ src :: l2 -> fn src = inr f ->
          exists w1 r1 w2 pre post,
            stat fuel g (displaySrc g src f) f (Depth (opts g)) w1 = Some (r1, w2) /\
            trace w1 = trace w ++ pre ++ [EvResolve src] /\
            trace w' = trace w2 ++ post)).
Proof.
  split; [intros Hd Hf; now apply statfnLoop_total|].
  split; [reflexivity|].
  intros r w' H. unfold statfn in H.
  destruct (statfnLoop_spec _ _ _ _ _ _ _ _ _ H) as [Hr Hevs].
  split; [exact Hevs|]. split; [|split; [|split]].
  - intros src s fErr Hin Hfail. apply in_split in Hin as [l1 [l2 Hl]].
    apply failsWith_sourceFailure in Hfail.
    destruct (aggregate_failure g fname fn l1 src l2 s fErr Hfail)
      as [e1 [e [Ha [_ [He Hc]]]]].
    exists e. split; [|exact Hc]. now rewrite Hr, Hl, Ha.
  - intros l1 src l2 s fErr Hl Hfail Hok.
    apply failsWith_sourceFailure in Hfail.
    destruct (aggregate_failure g fname fn l1 src l2 s fErr Hfail)
      as [e1 [e [Ha [Hc _]]]].
    exists e1. split; [|exact Hc]. rewrite Hr, Hl, Ha.
    apply aggregate_unchanged. intros x Hx.
    eapply succeeds_sourceFailure. now apply Hok.
  - intros Hok. rewrite Hr. apply aggregate_unchanged. intros x Hx.
    eapply succeeds_sourceFailure. now apply Hok.
  - intros l1 src l2 f Hl Hfn. rewrite Hl in H.
    eapply statfnLoop_source; eassumption.
Qed.

(** C10.  In checksum mode, a source that resolves to [f] is given to
    [stat] under the name of [f], or under the empty path when [f] is a
    container and the root path of the options is the root of the store:
    the entry into [stat] that follows the resolution carries that path,
    not the source, and so does the checksum line of [f], if it has one. *)
Theorem statfn_checksum_root fuel g fname fn w r w' l1 src l2 f :
  Md5sum (opts g) = true ->
  Sources (opts g) = l1 ++ src :: l2 ->
  fn src = inr f ->
  statfn fuel g fname fn w = Some (r, w') ->
  exists top pre post,
    top = (if IsDir f && rootLike (Path (opts g)) then EmptyString else Name f) /\
    trace w' = trace w ++ pre ++
      EvResolve src :: EvStat top f (Depth (opts g)) ::
      (if (Md5Checksum f =? EmptyString)%string then []
       else [EvLogf ("%32s  %s" ++ nl)
                    [VString (Md5Checksum f); VString (TrimPrefix top "/")]]) ++ post.
Proof.
  intros Hmd5 Hl Hfn H. unfold statfn in H. rewrite Hl in H.
  destruct (statfnLoop_source _ _ _ _ _ _ _ _ _ _ _ _ Hfn H)
    as [w1 [r1 [w2 [pre [post [Hs [Ht1 Ht2]]]]]]].
  apply stat_own_report in Hs as [rest [Hown _]].
  unfold displaySrc in Hown. rewrite Hmd5 in Hown.
  unfold reportEvents, checksumEvents in Hown. rewrite Hmd5 in Hown.
  eexists _, pre, (rest ++ post). split; [reflexivity|].
  rewrite Ht2, Hown, Ht1. rewrite <- !app_assoc. cbn [app].
  now rewrite <- app_assoc.
Qed.

End Properties.







(** ** The properties on the sample store *)

Lemma stat_stream_error_aborts_witness :
  stat 1 (Sample.cmd true false 2 []) "a/c" Sample.c 2 initWorld =
  Some (Some Sample.ioErr,
        mkWorld [EvStat "a/c" Sample.c 2; EvFindByParentId "id-c" false] true).
Proof.
  exact (proj2 (proj2
    (stat_stream_error_aborts 0 (Sample.cmd true false 2 []) "a/c" Sample.c 2
       initWorld Sample.ioErr eq_refl ltac:(discriminate) (or_introl eq_refl) eq_refl))).
Defined.

Lemma stat_ignores_child_errors_witness :
  exists w', stat 3 (Sample.cmd true false 2 []) "a" Sample.a 2 initWorld = Some (None, w').
Proof.
  exact (proj2
    (stat_ignores_child_errors (Sample.cmd true false 2 []) "a" Sample.a 2 initWorld
       [Sample.b; Sample.c] eq_refl ltac:(discriminate) (or_introl eq_refl) eq_refl)
    eq_refl).
Defined.


Lemma stat_children_order_witness :
  [Sample.b; Sample.c] = delivered (FindByParentId Sample.rem "id-a" false) /\
  exists order,
    Permutation [Sample.b; Sample.c] order /\ StronglySorted md5NameLe order.
Proof.
  destruct (stat_children_order 0 (Sample.cmd true false 1 []) "a" Sample.a 1 initWorld
              [Sample.b; Sample.c] eq_refl ltac:(discriminate) (or_introl eq_refl) eq_refl)
    as [Hd [order [Hsorted _]]].
  split; [exact Hd|].
  exists order. exact (Hsorted eq_refl).
Defined.

(** In checksum mode the folder [c], which has no checksum, is visited
    before the file [b]; in verbose mode the order is that of delivery. *)
Example sample_order_md5 :
  option_map (fun rw => statCalls (snd rw))
    (stat 2 (Sample.cmd true false 1 []) "a" Sample.a 1 initWorld) =
  Some [EvStat "a" Sample.a 1; EvStat "a/c" Sample.c 0; EvStat "a/b" Sample.b 0].
Proof. reflexivity. Qed.

Example sample_order_verbose :
  option_map (fun rw => statCalls (snd rw))
    (stat 2 (Sample.cmd false false 1 []) "a" Sample.a 1 initWorld) =
  Some [EvStat "a" Sample.a 1; EvStat "a/b" Sample.b 0; EvStat "a/c" Sample.c 0].
Proof. reflexivity. Qed.

(** The children of the example of the spec: checksums [b], empty, [a]
    with names [x], [y], [z]. *)
Example sample_sort :
  map Name (gsort [Sample.fileOf "x" "1" false "b";
                   Sample.fileOf "y" "2" false EmptyString;
                   Sample.fileOf "z" "3" false "a"] [Md5Key; NameKey]) =
  ["y"; "z"; "x"].
Proof. reflexivity. Qed.

Lemma stat_checksum_line_witness :
  exists w',
    stat 1 (Sample.md5 []) "/a/b" Sample.b 0 initWorld = Some (None, w') /\
    output w' = (spaces 24 ++ "deadbeef  a/b" ++ nl)%string.
Proof.
  exact (proj2 (stat_checksum_line (Sample.md5 []) "/a/b" Sample.b 0 initWorld eq_refl)
           0%nat (or_introl eq_refl)).
Defined.

(** The checksum of [b] has 8 characters: the line starts with 24 blanks,
    and is not the checksum followed by blanks, whatever their number. *)
Lemma checksum_line_not_right_padded :
  exists w',
    stat 1 (Sample.md5 []) "/a/b" Sample.b 0 initWorld = Some (None, w') /\
    output w' = (spaces 24 ++ "deadbeef  a/b" ++ nl)%string /\
    ~ (exists k, output w' = ("deadbeef" ++ spaces k ++ "  " ++ "a/b" ++ nl)%string).
Proof.
  eexists. split; [reflexivity|]. split; [reflexivity|].
  intros [k H]. vm_compute in H. discriminate H.
Qed.



(** ** The shape of a row of comma-separated values *)

Definition isTab (c : ascii) : bool := Ascii.eqb c "009".

Fixpoint hasTab (s : string) : bool :=
  match s with
  | EmptyString => false
  | String c r => isTab c || hasTab r
  end.

(** [row] is the fields in order, each with blanks before or after it,
    with commas between them and nothing else, and a newline. *)
Definition commaRow (fields : list string) (row : string) : Prop :=
  exists cells,
    Forall2 (fun f cell => exists l r, cell = (spaces l ++ f ++ spaces r)%string)
            fields cells /\
    row = (concat "," cells ++ nl)%string.

Lemma hasTab_app a b : hasTab (a ++ b) = hasTab a || hasTab b.
Proof. induction a; simpl; [reflexivity|]. now rewrite IHa, orb_assoc. Qed.

Lemma hasTab_spaces n : hasTab (spaces n) = false.
Proof. induction n; simpl; auto. Qed.

Lemma hasTab_concat cells :
  hasTab (concat "," cells) = existsb hasTab cells.
Proof.
  induction cells as [|x [|y l] IH]; [reflexivity| |].
  - simpl. now rewrite orb_false_r.
  - change (concat "," (x :: y :: l)) with (x ++ "," ++ concat "," (y :: l))%string.
    rewrite !hasTab_app, IH. reflexivity.
Qed.

Lemma commaRow_no_tab fields row :
  commaRow fields row -> existsb hasTab fields = false -> hasTab row = false.
Proof.
  intros [cells [Hcells ->]] Hf.
  rewrite hasTab_app, hasTab_concat. simpl. rewrite orb_false_r.
  induction Hcells as [|f cell fs cs [l [r ->]] _ IH]; [reflexivity|].
  simpl in Hf |- *. apply orb_false_iff in Hf as [Hf1 Hf2].
  now rewrite !hasTab_app, !hasTab_spaces, Hf1, IH.
Qed.

(** The row written for the owner of [b] holds two tab characters between
    the address and the role: it is not the six fields with blanks and
    commas only, on whichever side the blanks are. *)
Lemma csv_row_has_tabs :
  exists w',
    prettyFilePermission Sample.owner Sample.b initWorld = Some (tt, w') /\
    output w' =
    (padRight 60 "b" ++ "," ++ padRight 10 "file" ++ "," ++ padRight 25 "Ann" ++ "," ++
     padRight 25 "ann@example.com" ++ tab ++ tab ++ "," ++ padRight 25 "owner" ++ "," ++
     padRight 25 "user" ++ nl)%string /\
    ~ commaRow ["b"; "file"; "Ann"; "ann@example.com"; "owner"; "user"] (output w').
Proof.
  eexists. split; [reflexivity|]. split; [reflexivity|].
  intros H. apply commaRow_no_tab in H; [|reflexivity].
  vm_compute in H. discriminate H.
Qed.

(** Two invocations of [Stat] in CSV mode in one process: the second one
    starts with [firstLine] unset and writes no header. *)
Definition twoCsvRuns : option World :=
  match Stat 2 (Sample.cmd false true 1 ["/a"]) initWorld with
  | Some (_, w1) =>
      match Stat 2 (Sample.cmd false true 1 ["/a"; "/a"]) w1 with
      | Some (_, w2) => Some w2
      | None => None
      end
  | None => None
  end.

Example twoCsvRuns_text :
  option_map output twoCsvRuns =
  Some (csvHeader ++ csvRow Sample.b Sample.owner ++
        csvRow Sample.b Sample.owner ++ csvRow Sample.b Sample.owner)%string.
Proof. reflexivity. Qed.

Lemma csv_header_once_witness :
  exists w, twoCsvRuns = Some w /\
    firstLine w = false /\ List.length (filter isHeader (trace w)) = 1%nat.
Proof.
  destruct (Stat 2 (Sample.cmd false true 1 ["/a"]) initWorld) as [[r1 w1]|] eqn:H1;
    [|discriminate].
  destruct (Stat 2 (Sample.cmd false true 1 ["/a"; "/a"]) w1) as [[r2 w2]|] eqn:H2.
  - exists w2. split; [unfold twoCsvRuns; now rewrite H1, H2|].
    assert (Hfl : firstLine w2 = false).
    { vm_compute in H1. inversion H1; subst. vm_compute in H2. now inversion H2. }
    split; [exact Hfl|].
    apply (proj1 (proj2 (proj2 (csv_header_once w2
             (reach_statfn _ _ _ _ _ _ _ (reach_statfn _ _ _ _ _ _ _ reach_init H1) H2))))).
    exact Hfl.
  - vm_compute in H1. inversion H1; subst. vm_compute in H2. discriminate H2.
Defined.

(** The example of the spec: one source that resolves and two that do not. *)
Example Stat_three_sources :
  match Stat 5 (Sample.md5 ["/a"; "/bad1"; "/bad2"]) initWorld with
  | Some (r, w) => Some (r, output w)
  | None => None
  end
  = Some (Some (mkError ("stat: /bad1 err: not found" ++ nl ++ nl ++
                         "stat: /bad2 err: backend error" ++ nl) 500),
          spaces 24 ++ "deadbeef  a/b" ++ nl)%string.
Proof. reflexivity. Qed.

Lemma statfn_checksum_root_witness :
  exists r w' top pre post,
    StatById 2 (Sample.md5 ["id-a"]) initWorld = Some (r, w') /\
    top = "a" /\
    trace w' = (pre ++ EvResolve "id-a" :: EvStat top Sample.a 1 :: post)%list.
Proof.
  destruct (StatById 2 (Sample.md5 ["id-a"]) initWorld) as [[r w']|] eqn:H;
    [|vm_compute in H; discriminate H].
  destruct (statfn_checksum_root 2 (Sample.md5 ["id-a"]) "statById"
              (FindById Sample.rem) initWorld r w' [] "id-a" [] Sample.a
              eq_refl eq_refl eq_refl H)
    as [top [pre [post [Htop Ht]]]].
  exists r, w', top, pre, post. split; [reflexivity|]. split; [exact Htop|exact Ht].
Defined.

(** A source given by id is reported under the name of the file; with the
    root of the store as root path, a container is reported under the
    empty path. *)
Example StatById_names :
  option_map (fun rw => output (snd rw)) (StatById 2 (Sample.md5 ["id-a"]) initWorld)
  = Some (spaces 24 ++ "deadbeef  a/b" ++ nl)%string.
Proof. reflexivity. Qed.

Example StatById_root :
  option_map (fun rw => (statCalls (snd rw), output (snd rw)))
    (StatById 2 (mkCommands (mkOptions ["id-a"] true false 1 false "/") Sample.rem)
       initWorld)
  = Some ([EvStat EmptyString Sample.a 1; EvStat "/c" Sample.c 0; EvStat "/b" Sample.b 0],
          (spaces 24 ++ "deadbeef  b" ++ nl)%string).
Proof. reflexivity. Qed.

Lemma statfn_aggregates_witness :
  exists r w' e,
    Stat 2 (Sample.md5 ["/a"; "/bad1"; "/bad2"]) initWorld = Some (r, w') /\
    r = Some e /\
    contains (errText e) ("stat: /bad1 err: not found" ++ nl) /\
    contains (errText e) ("stat: /bad2 err: backend error" ++ nl) /\
    errCode e = 500.
Proof.
  destruct (Stat 2 (Sample.md5 ["/a"; "/bad1"; "/bad2"]) initWorld) as [[r w']|] eqn:H;
    [|vm_compute in H; discriminate H].
  destruct (proj2 (proj2 (statfn_aggregates 2 (Sample.md5 ["/a"; "/bad1"; "/bad2"])
                            "stat" (FindByPath Sample.rem) initWorld)) r w' H)
    as [_ [Hmsg [Hcode _]]].
  destruct (Hmsg "/bad1" "/bad1" Sample.notFound
              (or_intror (or_introl eq_refl)) (or_introl (conj eq_refl eq_refl)))
    as [e1 [He1 Hc1]].
  destruct (Hmsg "/bad2" "/bad2" Sample.ioErr
              (or_intror (or_intror (or_introl eq_refl))) (or_introl (conj eq_refl eq_refl)))
    as [e2 [He2 Hc2]].
  destruct (Hcode ["/a"; "/bad1"] "/bad2" [] "/bad2" Sample.ioErr eq_refl
              (or_introl (conj eq_refl eq_refl)) (fun x (Hx : In x []) => match Hx with end))
    as [e3 [He3 Hc3]].
  exists r, w', e1. split; [reflexivity|]. split; [exact He1|].
  split; [exact Hc1|].
  assert (E2 : e2 = e1) by congruence. assert (E3 : e3 = e1) by congruence.
  subst e2 e3. split; [exact Hc2|exact Hc3].
Defined.

(** The listing of [c] fails, and the permissions of [d] cannot be read:
    [stat] on [c] returns the error, and [stat] on [a] still visits [b] and
    [c] and returns [nil]. *)
Example sample_child_failure :
  option_map fst (stat 3 (Sample.cmd false false 2 []) "a/c" Sample.c 1 initWorld)
  = Some (Some Sample.ioErr) /\
  option_map (fun rw => (fst rw, statCalls (snd rw)))
    (stat 3 (Sample.cmd false false 2 []) "a" Sample.a 2 initWorld)
  = Some (None, [EvStat "a" Sample.a 2; EvStat "a/b" Sample.b 1; EvStat "a/c" Sample.c 1]).
Proof. split; reflexivity. Qed.

(** * Further properties of [stat.go] *)

Section Traversal.

Context {ext : Externals}.

Local Open Scope list_scope.

(** ** What a traversal may do *)

Definition checksumFormat : string := ("%32s  %s" ++ nl)%string.

(** The events a call of [stat] with the budget [depth] may add: entries
    into [stat] within the budget, listings with the [Hidden] option of the
    command, fetches of permissions outside checksum mode only, and calls
    of the logger that, in checksum mode, are checksum lines and, in
    verbose mode, are neither the CSV header nor a CSV row. *)
Definition eventOk (g : Commands) (depth : Z) (e : event) : bool :=
  match e with
  | EvLogf format args =>
      if Md5sum (opts g) then (format =? checksumFormat)%string
      else if CsvOutput (opts g) then true
      else negb (isHeader e || isCsvRow e)
  | EvResolve _ => false
  | EvListPermissions _ => negb (Md5sum (opts g))
  | EvFindByParentId _ hidden => Bool.eqb hidden (Hidden (opts g))
  | EvStat _ _ d =>
      if depth <? 0 then d =? depth else (0 <=? d) && (d <=? depth)
  end.

Lemma eventOk_nextDepth g depth e :
  eventOk g (nextDepth depth) e = true -> eventOk g depth e = true.
Proof.
  destruct e as [format args|src|fileId|parentId hidden|path file d]; auto.
  unfold eventOk, nextDepth.
  destruct (depth >=? 1) eqn:E1; [|auto].
  assert ((depth <? 0) = false) as -> by lia.
  assert ((depth - 1 <? 0) = false) as -> by lia.
  intros H. apply andb_true_iff in H as [H1 H2].
  apply andb_true_iff. split; lia.
Qed.

Lemma reportEvents_ok g path file first depth :
  forallb (eventOk g depth) (reportEvents g path file first) = true.
Proof.
  unfold reportEvents, checksumEvents.
  destruct (Md5sum (opts g)) eqn:Hmd5.
  - destruct (Md5Checksum file =? EmptyString)%string; [reflexivity|].
    simpl. now rewrite Hmd5.
  - cbn [forallb]. unfold eventOk at 1. rewrite Hmd5. cbn [negb andb].
    destruct (CsvOutput (opts g)) eqn:Hcsv.
    + rewrite forallb_forall. intros e He. destruct e; try reflexivity.
      * simpl. now rewrite Hmd5, Hcsv.
      * exfalso. apply in_app_or in He as [He|He].
        { destruct first; [destruct He as [He|[]]; discriminate He|destruct He]. }
        { apply in_flat_map in He as [perm [_ He]].
          repeat (destruct He as [He|He]; [discriminate He|]). destruct He. }
      * simpl. now rewrite Hmd5.
      * exfalso. apply in_app_or in He as [He|He].
        { destruct first; [destruct He as [He|[]]; discriminate He|destruct He]. }
        { apply in_flat_map in He as [perm [_ He]].
          repeat (destruct He as [He|He]; [discriminate He|]). destruct He. }
      * exfalso. apply in_app_or in He as [He|He].
        { destruct first; [destruct He as [He|[]]; discriminate He|destruct He]. }
        { apply in_flat_map in He as [perm [_ He]].
          repeat (destruct He as [He|He]; [discriminate He|]). destruct He. }
    + rewrite forallb_app. apply andb_true_intro; split.
      * unfold fileStatEvents. cbn [forallb]. apply andb_true_intro; split.
        { simpl. now rewrite Hmd5, Hcsv. }
        rewrite forallb_forall. intros e He.
        apply in_map_iff in He as [kv [<- _]]. simpl. now rewrite Hmd5, Hcsv.
      * destruct (snd _); [reflexivity|]. apply forallb_flat_map.
        intros perm. simpl. now rewrite Hmd5, Hcsv.
Qed.

Lemma statChildren_ok fuel g path depth :
  (forall p f w r w', stat fuel g p f depth w = Some (r, w') ->
     exists evs, trace w' = trace w ++ evs /\ forallb (eventOk g depth) evs = true) ->
  forall children w u w',
    statChildren fuel g path depth children w = Some (u, w') ->
    exists evs, trace w' = trace w ++ evs /\ forallb (eventOk g depth) evs = true.
Proof.
  intros IH. unfold statChildren.
  induction children as [|c l IHl]; intros w u w' H; cbn [forRange] in H.
  - inversion H; subst. exists []. now rewrite app_nil_r.
  - unfold bind at 1 2 in H.
    destruct (stat fuel g _ c _ w) as [[r1 w2]|] eqn:Hs; [|discriminate].
    apply IH in Hs as [e1 [Ht1 Hf1]]. apply IHl in H as [e2 [Ht2 Hf2]].
    exists (e1 ++ e2). rewrite Ht2, Ht1, <- app_assoc, forallb_app, Hf1, Hf2. auto.
Qed.

Lemma stat_events_ok fuel : forall g path file depth w r w',
  stat fuel g path file depth w = Some (r, w') ->
  exists evs, trace w' = trace w ++ evs /\ forallb (eventOk g depth) evs = true.
Proof.
  induction fuel as [|fuel IH]; intros g path file depth w r w' H; [discriminate|].
  rewrite stat_unfold in H.
  assert (Hself : eventOk g depth (EvStat path file depth) = true).
  { simpl. destruct (depth <? 0) eqn:E; [apply Z.eqb_refl|].
    apply andb_true_iff; split; lia. }
  pose proof (reportEvents_ok g path file (firstLine w) depth) as Hrep.
  assert (Hleaf : exists evs,
             trace (afterReport g path file depth w) = trace w ++ evs /\
             forallb (eventOk g depth) evs = true).
  { eexists. split; [reflexivity|]. cbn [forallb]. now rewrite Hself, Hrep. }
  assert (Hlist : exists evs,
             trace (afterListing g path file depth w) = trace w ++ evs /\
             forallb (eventOk g depth) evs = true).
  { exists ((EvStat path file depth :: reportEvents g path file (firstLine w))
              ++ [EvFindByParentId (Id file) (Hidden (opts g))]).
    split; [unfold afterListing, afterReport; simpl; now rewrite <- app_assoc|].
    rewrite forallb_app. cbn [forallb]. rewrite Hself, Hrep. simpl.
    now rewrite Bool.eqb_reflx. }
  destruct (reportResult g file); [now inversion H; subst|].
  destruct ((depth =? 0) || negb (IsDir file)); [now inversion H; subst|].
  destruct (collect _ _) as [err|cs]; [now inversion H; subst|].
  destruct (statChildren _ _ _ _ _ _) as [[u w1]|] eqn:Hc; [|discriminate].
  inversion H; subst; clear H.
  apply (statChildren_ok fuel g path _ (fun p f => IH g p f (nextDepth depth)))
    in Hc as [e2 [Ht2 Hf2]].
  destruct Hlist as [e1 [Ht1 Hf1]].
  exists (e1 ++ e2). rewrite Ht2, Ht1, <- app_assoc, forallb_app, Hf1. split; [reflexivity|].
  simpl. rewrite forallb_forall in Hf2 |- *. intros e He.
  apply eventOk_nextDepth. now apply Hf2.
Qed.

(** ** The budget, the options and the modes *)

(** X1.  A call of [stat] with a budget that is not negative enters [stat]
    only with budgets between 0 and its own; with a negative budget every
    entry carries that same budget: it is never decremented. *)
Theorem stat_depth_bounds fuel g path file depth w r w' :
  stat fuel g path file depth w = Some (r, w') ->
  exists evs,
    trace w' = trace w ++ evs /\
    forall p f d, In (EvStat p f d) evs ->
      (0 <= depth -> 0 <= d <= depth) /\ (depth < 0 -> d = depth).
Proof.
  intros H. apply stat_events_ok in H as [evs [Ht Hok]].
  exists evs. split; [exact Ht|]. intros p f d Hin.
  rewrite forallb_forall in Hok. specialize (Hok _ Hin). simpl in Hok.
  destruct (depth <? 0) eqn:E.
  - split; [lia|]. intros _. lia.
  - apply andb_true_iff in Hok. split; [lia|lia].
Qed.

(** X2.  Every listing a call of [stat] opens, at any level, is asked with
    the [Hidden] option of the command; and the call resolves no source. *)
Theorem stat_listings_hidden fuel g path file depth w r w' :
  stat fuel g path file depth w = Some (r, w') ->
  exists evs,
    trace w' = trace w ++ evs /\
    (forall parentId hidden,
        In (EvFindByParentId parentId hidden) evs -> hidden = Hidden (opts g)) /\
    (forall src, ~ In (EvResolve src) evs).
Proof.
  intros H. apply stat_events_ok in H as [evs [Ht Hok]].
  exists evs. split; [exact Ht|]. rewrite forallb_forall in Hok. split.
  - intros parentId hidden Hin. specialize (Hok _ Hin). simpl in Hok.
    now apply Bool.eqb_prop in Hok.
  - intros src Hin. specialize (Hok _ Hin). discriminate Hok.
Qed.

(** X3.  Checksum mode has precedence over CSV mode and does nothing but
    write checksum lines: a call of [stat] in checksum mode, at any depth
    and whatever [CsvOutput] is, fetches no permissions, makes no call of
    the logger with another format than that of the checksum line, and
    leaves [firstLine] as it is. *)
Theorem stat_checksum_only fuel g path file depth w r w' :
  Md5sum (opts g) = true ->
  stat fuel g path file depth w = Some (r, w') ->
  firstLine w' = firstLine w /\
  exists evs,
    trace w' = trace w ++ evs /\
    (forall fileId, ~ In (EvListPermissions fileId) evs) /\
    (forall format args, In (EvLogf format args) evs -> format = ("%32s  %s" ++ nl)%string).
Proof.
  intros Hmd5 H.
  pose proof (stat_follows _ _ _ _ _ _ _ _ H) as [evs0 [Ht0 [_ Hseen]]].
  apply stat_events_ok in H as [evs [Ht Hok]].
  assert (evs0 = evs) by (rewrite Ht0 in Ht; now apply app_inv_head in Ht).
  subst evs0. rewrite forallb_forall in Hok.
  assert (Hlog : forall format args,
             In (EvLogf format args) evs -> format = ("%32s  %s" ++ nl)%string).
  { intros format args Hin. specialize (Hok _ Hin). simpl in Hok.
    rewrite Hmd5 in Hok. now apply String.eqb_eq in Hok. }
  split.
  - assert (Hno : existsb isHeader evs = false).
    { apply not_true_is_false. intros Hex.
      apply existsb_exists in Hex as [e [Hin He]].
      destruct e as [format args| | | |]; try discriminate He.
      destruct args; [|discriminate He]. simpl in He.
      apply String.eqb_eq in He. apply Hlog in Hin. rewrite He in Hin.
      discriminate Hin. }
    unfold seenAfter in Hseen. rewrite Hno, orb_false_r in Hseen.
    destruct (firstLine w), (firstLine w'); simpl in Hseen; congruence.
  - exists evs. split; [exact Ht|]. split; [|exact Hlog].
    intros fileId Hin. specialize (Hok _ Hin). simpl in Hok.
    rewrite Hmd5 in Hok. discriminate Hok.
Qed.

(** X4.  Verbose mode never writes the CSV header nor a CSV row, and leaves
    [firstLine] as it is: a later call in CSV mode in the same process
    still writes the header. *)
Theorem stat_verbose_keeps_firstLine fuel g path file depth w r w' :
  Md5sum (opts g) = false -> CsvOutput (opts g) = false ->
  stat fuel g path file depth w = Some (r, w') ->
  firstLine w' = firstLine w /\
  exists evs,
    trace w' = trace w ++ evs /\
    forall e, In e evs -> isHeader e = false /\ isCsvRow e = false.
Proof.
  intros Hmd5 Hcsv H.
  pose proof (stat_follows _ _ _ _ _ _ _ _ H) as [evs0 [Ht0 [_ Hseen]]].
  apply stat_events_ok in H as [evs [Ht Hok]].
  assert (evs0 = evs) by (rewrite Ht0 in Ht; now apply app_inv_head in Ht).
  subst evs0. rewrite forallb_forall in Hok.
  assert (Hnone : forall e, In e evs -> isHeader e = false /\ isCsvRow e = false).
  { intros e Hin. specialize (Hok _ Hin).
    destruct e as [format args| | | |]; try (split; reflexivity).
    unfold eventOk in Hok. rewrite Hmd5, Hcsv in Hok.
    apply negb_true_iff, orb_false_iff in Hok. exact Hok. }
  split.
  - assert (Hno : existsb isHeader evs = false).
    { apply not_true_is_false. intros Hex.
      apply existsb_exists in Hex as [e [Hin He]].
      destruct (Hnone e Hin) as [Hh _]. congruence. }
    unfold seenAfter in Hseen. rewrite Hno, orb_false_r in Hseen.
    destruct (firstLine w), (firstLine w'); simpl in Hseen; congruence.
  - exists evs. split; [exact Ht|exact Hnone].
Qed.

(** ** The errors of [stat] *)

(** X5.  In verbose mode, when the permissions of a file cannot be read,
    [stat] writes the heading and the rows of the file and returns the
    error of the fetch: it writes no block of permissions, and it opens no
    listing, even for a container with budget left. *)
Theorem stat_verbose_perm_error fuel g path file depth w e :
  Md5sum (opts g) = false -> CsvOutput (opts g) = false ->
  snd (listPermissions (rem g) (Id file)) = Some e ->
  stat (S fuel) g path file depth w =
  Some (Some e,
        mkWorld (trace w ++ EvStat path file depth :: EvListPermissions (Id file) ::
                   EvLogf (nl ++ esc ++ "[92m%s" ++ esc ++ "[00m" ++ nl) [VString path] ::
                   map (fun kv => EvLogf ("%-25s %-30v" ++ nl)
                                         [VString (key kv); VString (value kv)])
                       (fileStatRows file))
                (firstLine w)).
Proof.
  intros Hmd5 Hcsv Herr. rewrite stat_unfold.
  unfold reportResult, afterReport, reportEvents, reportFirstLine.
  rewrite Hmd5, Hcsv, Herr. unfold fileStatEvents. now rewrite app_nil_r.
Qed.

(** X6.  In checksum mode and in CSV mode [stat] never returns the error of
    a fetch of permissions: what it returns is [nil] when the budget is 0
    or the file is not a container, and otherwise the first error of the
    listing of the file itself, [nil] if there is none. *)
Theorem stat_csv_ignores_perm_error fuel g path file depth w r w' :
  Md5sum (opts g) || CsvOutput (opts g) = true ->
  stat fuel g path file depth w = Some (r, w') ->
  r = if (depth =? 0) || negb (IsDir file) then None
      else firstError (FindByParentId (rem g) (Id file) (Hidden (opts g))).
Proof.
  intros Hmode H. apply stat_result in H. rewrite H. unfold statResult.
  rewrite (reportResult_None g file (or_introl Hmode)).
  destruct ((depth =? 0) || negb (IsDir file)); [reflexivity|].
  rewrite collect_spec. now destruct (firstError _).
Qed.

(** ** The text of the verbose report *)

Lemma textOf_app a b : textOf (a ++ b) = (textOf a ++ textOf b)%string.
Proof. unfold textOf. now rewrite map_app, concat_nosep_app. Qed.

Lemma textOf_cons e evs : textOf (e :: evs) = (render e ++ textOf evs)%string.
Proof. unfold textOf. cbn [map]. apply concat_nosep_cons. Qed.

Lemma Sprintf_row k v :
  Sprintf ("%-25s %-30v" ++ nl) [VString k; VString v] =
  (padRight 25 k ++ " " ++ padRight 30 v ++ nl)%string.
Proof. reflexivity. Qed.

(** The text of one row of the metadata block. *)
Definition rowText (kv : keyValue) : string :=
  (padRight 25 (key kv) ++ " " ++ padRight 30 (value kv) ++ nl)%string.

Lemma textOf_rows rows :
  textOf (map rowEvent rows) = concat EmptyString (map rowText rows).
Proof.
  induction rows as [|kv rows IH]; [reflexivity|].
  cbn [map]. rewrite textOf_cons, concat_nosep_cons, IH.
  unfold rowEvent, rowText. cbn [render]. now rewrite Sprintf_row.
Qed.

(** X7.  [prettyPermission] writes a block of five lines: an empty line, a
    star, the name and the address between angle brackets, the role and
    the account type, each after its label in a field of at least 20 runes
    and itself in a field of at least 30 runes with the blanks after it,
    and a closing star. *)
Theorem prettyPermission_text perm w :
  exists w',
    prettyPermission perm w = Some (tt, w') /\
    firstLine w' = firstLine w /\
    output w' =
    (output w ++
     nl ++ "*" ++ nl ++
     "Name: " ++ drive.Name perm ++ " <" ++ drive.EmailAddress perm ++ ">" ++ nl ++
     "Role" ++ spaces 16 ++ " " ++ padRight 30 (drive.Role perm) ++ nl ++
     "AccountType" ++ spaces 9 ++ " " ++ padRight 30 (drive.Type' perm) ++ nl ++
     "*" ++ nl)%string.
Proof.
  rewrite prettyPermission_emits. eexists. split; [reflexivity|]. split; [reflexivity|].
  rewrite output_app. unfold output. f_equal.
  unfold permissionEvents. rewrite !textOf_cons. cbn [render].
  change (textOf []) with EmptyString.
  assert (H1 : forall n e,
             Sprintf (nl ++ "*" ++ nl ++ "Name: %v <%s>" ++ nl) [VString n; VString e] =
             (nl ++ "*" ++ nl ++ "Name: " ++ n ++ " <" ++ e ++ ">" ++ nl)%string)
    by reflexivity.
  assert (H2 : forall k v,
             Sprintf ("%-20s %-30v" ++ nl) [VString k; VString v] =
             (padRight 20 k ++ " " ++ padRight 30 v ++ nl)%string)
    by reflexivity.
  rewrite H1, !H2. change (Sprintf ("*" ++ nl) []) with ("*" ++ nl)%string.
  change (padRight 20 "Role") with ("Role" ++ spaces 16)%string.
  change (padRight 20 "AccountType") with ("AccountType" ++ spaces 9)%string.
  rewrite string_app_nil_r, !string_app_assoc. reflexivity.
Qed.

(** X8.  [prettyFileStat] writes an empty line, the path as it is given
    (no separator removed) between the escape sequences for green and for
    reset, and then one line for every row: the label in a field of at
    least 25 runes, a blank, and the value in a field of at least 30 runes,
    the blanks after the text. *)
Theorem prettyFileStat_text path file w :
  exists w',
    prettyFileStat path file w = Some (tt, w') /\
    firstLine w' = firstLine w /\
    output w' =
    (output w ++
     nl ++ esc ++ "[92m" ++ path ++ esc ++ "[00m" ++ nl ++
     concat EmptyString
       (map (fun kv => padRight 25 (key kv) ++ " " ++ padRight 30 (value kv) ++ nl)
            (fileStatRows file)))%string.
Proof.
  rewrite prettyFileStat_emits. eexists. split; [reflexivity|]. split; [reflexivity|].
  rewrite output_app. unfold output. f_equal.
  unfold fileStatEvents. rewrite textOf_cons, textOf_rows. cbn [render].
  assert (H1 : forall p,
             Sprintf (nl ++ esc ++ "[92m%s" ++ esc ++ "[00m" ++ nl) [VString p] =
             (nl ++ esc ++ "[92m" ++ p ++ esc ++ "[00m" ++ nl)%string)
    by reflexivity.
  rewrite H1. rewrite !string_app_assoc. reflexivity.
Qed.

(** ** The rows of the metadata block *)

Definition hasKey (k : string) (rows : list keyValue) : bool :=
  existsb (fun kv => (key kv =? k)%string) rows.

Fixpoint distinctKeys (rows : list keyValue) : bool :=
  match rows with
  | [] => true
  | kv :: rest => negb (hasKey (key kv) rest) && distinctKeys rest
  end.

Lemma hasKey_In k rows : hasKey k rows = true <-> In k (map key rows).
Proof.
  unfold hasKey. rewrite existsb_exists, in_map_iff. split.
  - intros [kv [Hin Hk]]. apply String.eqb_eq in Hk. eauto.
  - intros [kv [Hk Hin]]. exists kv. split; [exact Hin|now apply String.eqb_eq].
Qed.

Lemma distinctKeys_NoDup rows : distinctKeys rows = true -> NoDup (map key rows).
Proof.
  induction rows as [|kv rest IH]; simpl; [constructor|].
  intros H. apply andb_true_iff in H as [Hk Hrest]. constructor; [|auto].
  intros Hin. apply hasKey_In in Hin. rewrite Hin in Hk. discriminate Hk.
Qed.

Lemma Sprintf_q s : Sprintf "%q" [VString s] = strconvQuote s.
Proof. unfold Sprintf. cbn. unfold padString. apply string_app_nil_r. Qed.

Lemma Sprintf_bool b : Sprintf "%v" [VBool b] = btoa b.
Proof. now destruct b. Qed.

Ltac find_row :=
  rewrite ?Sprintf_q, ?Sprintf_bool;
  repeat (first [left; reflexivity | right]).

(** The rows by cases on the four tests of [prettyFileStat]. *)
Ltac rows_cases file :=
  unfold fileStatRows;
  destruct (Description file =? EmptyString)%string eqn:Hdesc;
  destruct (Name file =? OriginalFilename file)%string eqn:Hname;
  destruct (IsDir file) eqn:Hdir;
  destruct (Labels file) as [labels|] eqn:Hlabels;
  cbn [negb app].

(** X9.  The metadata block starts with the same fourteen rows for every
    file, in a fixed order; it has at most eight rows more, and no label
    occurs twice. *)
Theorem fileStatRows_fixed file :
  map key (firstn 14 (fileStatRows file)) =
  ["Filename"; "FileId"; "Bytes"; "Size"; "QuotaBytesUsed"; "DirType";
   "VersionNumber"; "MimeType"; "Etag"; "ModTime"; "LastViewedByMe"; "Shared";
   "Owners"; "LastModifyingUsername"] /\
  (14 <= List.length (fileStatRows file) <= 22)%nat /\
  NoDup (map key (fileStatRows file)).
Proof.
  split; [|split].
  - rows_cases file; reflexivity.
  - rows_cases file; simpl; lia.
  - apply distinctKeys_NoDup. rows_cases file; reflexivity.
Qed.

(** X10.  The optional rows of the metadata block: the description, in
    quotes, exactly when it is not empty; the original name exactly when it
    differs from the name; the checksum and the "copyable" flag exactly
    when the file is not a container; the four rows of labels exactly when
    the file has labels, the row [ViewersCanDownload] showing the flag
    [Restricted] as it is. *)
Theorem fileStatRows_optional file :
  (In "Description" (map key (fileStatRows file)) <-> Description file <> EmptyString) /\
  (Description file <> EmptyString ->
   In (mkKeyValue "Description" (strconvQuote (Description file))) (fileStatRows file)) /\
  (In "OriginalFilename" (map key (fileStatRows file)) <->
   Name file <> OriginalFilename file) /\
  (In "Md5Checksum" (map key (fileStatRows file)) <-> IsDir file = false) /\
  (In "Copyable" (map key (fileStatRows file)) <-> IsDir file = false) /\
  (IsDir file = false ->
   In (mkKeyValue "Md5Checksum" (Md5Checksum file)) (fileStatRows file) /\
   In (mkKeyValue "Copyable" (btoa (Copyable file))) (fileStatRows file)) /\
  (forall k, In k ["Starred"; "Viewed"; "Trashed"; "ViewersCanDownload"] ->
     (In k (map key (fileStatRows file)) <-> Labels file <> None)) /\
  (forall labels, Labels file = Some labels ->
     In (mkKeyValue "ViewersCanDownload" (btoa (drive.Restricted labels)))
        (fileStatRows file)).
Proof.
  assert (Hin : forall k, In k (map key (fileStatRows file)) <->
                          hasKey k (fileStatRows file) = true).
  { intros k. symmetry. apply hasKey_In. }
  repeat split.
  - rewrite Hin. rows_cases file; intros H; try discriminate H;
      apply String.eqb_neq in Hdesc; exact Hdesc.
  - rewrite Hin. intros H. apply String.eqb_neq in H.
    rows_cases file; try reflexivity; congruence.
  - intros H. apply String.eqb_neq in H.
    rows_cases file; try congruence; find_row.
  - rewrite Hin. rows_cases file; intros H; try discriminate H;
      apply String.eqb_neq in Hname; exact Hname.
  - rewrite Hin. intros H. apply String.eqb_neq in H.
    rows_cases file; try reflexivity; congruence.
  - rewrite Hin. rows_cases file; intros H; try discriminate H; reflexivity.
  - rewrite Hin. intros H. rows_cases file; try reflexivity; congruence.
  - rewrite Hin. rows_cases file; intros H; try discriminate H; reflexivity.
  - rewrite Hin. intros H. rows_cases file; try reflexivity; congruence.
  - rows_cases file; try congruence; find_row.
  - rows_cases file; try congruence; find_row.
  - rewrite Hin.
    rows_cases file; intros H0; try congruence;
      destruct H as [<-|[<-|[<-|[<-|[]]]]]; discriminate H0.
  - rewrite Hin. intros H0.
    rows_cases file; try congruence;
      destruct H as [<-|[<-|[<-|[<-|[]]]]]; reflexivity.
  - intros l0 Hl. rows_cases file; try congruence;
      inversion Hl; subst; find_row.
Qed.

(** ** A folder in CSV mode *)

(** The rows of CSV mode for the permissions of [file]. *)
Definition csvRowsOf (g : Commands) (file : File) : string :=
  concat EmptyString (map (csvRow file) (fst (listPermissions (rem g) (Id file)))).

Lemma textOf_csv_rows file perms :
  textOf (flat_map (fun perm => filePermissionEvents perm file) perms) =
  concat EmptyString (map (csvRow file) perms).
Proof.
  induction perms as [|perm perms IH]; [reflexivity|].
  cbn [flat_map map]. now rewrite textOf_app, concat_nosep_cons, IH, filePermission_text.
Qed.

Lemma stat_csv_leaf fuel g path file w :
  Md5sum (opts g) = false -> CsvOutput (opts g) = true ->
  exists w',
    stat (S fuel) g path file 0 w = Some (None, w') /\
    firstLine w' = false /\
    output w' =
    (output w ++ (if firstLine w then csvHeader else EmptyString) ++ csvRowsOf g file)%string.
Proof.
  intros Hmd5 Hcsv. rewrite stat_unfold. unfold reportResult. rewrite Hmd5, Hcsv.
  cbn [Z.eqb orb]. eexists. split; [reflexivity|].
  unfold afterReport, reportFirstLine, reportEvents. rewrite Hmd5, Hcsv.
  split; [reflexivity|]. rewrite output_app. unfold output. f_equal.
  rewrite !textOf_cons, textOf_app, textOf_csv_rows. cbn [render append].
  unfold csvRowsOf. destruct (firstLine w); [|reflexivity].
  rewrite textOf_cons. cbn [render]. change (textOf []) with EmptyString.
  now rewrite string_app_nil_r.
Qed.

Lemma statChildren_csv fuel g path :
  Md5sum (opts g) = false -> CsvOutput (opts g) = true ->
  forall children w, firstLine w = false ->
    exists w',
      statChildren (S fuel) g path 0 children w = Some (tt, w') /\
      firstLine w' = false /\
      output w' = (output w ++ concat EmptyString (map (csvRowsOf g) children))%string.
Proof.
  intros Hmd5 Hcsv. unfold statChildren.
  induction children as [|c cs IH]; intros w Hfl; cbn [forRange map].
  - exists w. split; [reflexivity|]. split; [exact Hfl|].
    simpl. now rewrite string_app_nil_r.
  - unfold bind at 1 2.
    destruct (stat_csv_leaf fuel g (Clean (path ++ "/" ++ Name c)) c w Hmd5 Hcsv)
      as [w1 [Hs [Hfl1 Hout1]]].
    rewrite Hs. unfold ret at 1.
    destruct (IH w1 Hfl1) as [w' [Hc [Hfl' Hout']]].
    exists w'. split; [exact Hc|]. split; [exact Hfl'|].
    rewrite Hout', Hout1, Hfl, concat_nosep_cons. cbn [append].
    now rewrite string_app_assoc.
Qed.

(** X11.  In CSV mode, [stat] on a container with a budget of 1 whose
    listing delivers its children without error returns [nil] and writes:
    the header if it was not written before, the rows of the container,
    and then the rows of every child, in the order of delivery.  No child
    is expanded, and [firstLine] is unset afterwards. *)
Theorem stat_csv_folder fuel g path file w :
  Md5sum (opts g) = false -> CsvOutput (opts g) = true ->
  IsDir file = true ->
  firstError (FindByParentId (rem g) (Id file) (Hidden (opts g))) = None ->
  exists w',
    stat (S (S fuel)) g path file 1 w = Some (None, w') /\
    firstLine w' = false /\
    output w' =
    (output w ++ (if firstLine w then csvHeader else EmptyString) ++
     csvRowsOf g file ++
     concat EmptyString
       (map (csvRowsOf g)
            (delivered (FindByParentId (rem g) (Id file) (Hidden (opts g))))))%string.
Proof.
  intros Hmd5 Hcsv Hdir Hstream. rewrite stat_unfold.
  unfold reportResult. rewrite Hmd5, Hcsv, Hdir. cbn [Z.eqb negb orb].
  rewrite collect_spec, Hstream. cbn [app]. change (nextDepth 1) with 0.
  unfold childOrder. rewrite Hmd5.
  destruct (statChildren_csv fuel g path Hmd5 Hcsv
              (delivered (FindByParentId (rem g) (Id file) (Hidden (opts g))))
              (afterListing g path file 1 w)) as [w' [Hc [Hfl Hout]]].
  { unfold afterListing, reportFirstLine. now rewrite Hmd5, Hcsv. }
  rewrite Hc. exists w'. split; [reflexivity|]. split; [exact Hfl|].
  rewrite Hout. unfold afterListing, afterReport.
  cbn [trace]. rewrite <- app_assoc, output_app. unfold output.
  rewrite !string_app_assoc. f_equal.
  unfold reportEvents. rewrite Hmd5, Hcsv. cbn [app].
  rewrite !textOf_cons, !textOf_app, textOf_csv_rows. cbn [render append].
  rewrite textOf_cons. cbn [render]. change (textOf []) with EmptyString.
  unfold csvRowsOf. rewrite !string_app_assoc. f_equal.
  - destruct (firstLine w); [|reflexivity].
    rewrite textOf_cons. cbn [render]. change (textOf []) with EmptyString.
    change (Sprintf csvHeader []) with csvHeader. now rewrite string_app_nil_r.
Qed.

(** ** The entry points *)

(** X12.  Outside checksum mode, a source that resolves is given to [stat]
    under the source string itself, with the [Depth] of the options, and
    the first thing that call does is to fetch the permissions of the
    file. *)
Theorem statfn_plain_path fuel g fname fn w r w' l1 src l2 f :
  Md5sum (opts g) = false ->
  Sources (opts g) = l1 ++ src :: l2 ->
  fn src = inr f ->
  statfn fuel g fname fn w = Some (r, w') ->
  exists pre post,
    trace w' = trace w ++ pre ++
      EvResolve src :: EvStat src f (Depth (opts g)) ::
      EvListPermissions (Id f) :: post.
Proof.
  intros Hmd5 Hl Hfn H. unfold statfn in H. rewrite Hl in H.
  destruct (statfnLoop_source _ _ _ _ _ _ _ _ _ _ _ _ Hfn H)
    as [w1 [r1 [w2 [pre [post [Hs [Ht1 Ht2]]]]]]].
  apply stat_own_report in Hs as [rest [Hown _]].
  unfold displaySrc in Hown. rewrite Hmd5 in Hown.
  unfold reportEvents in Hown. rewrite Hmd5 in Hown. cbn [app] in Hown.
  eexists pre, _. rewrite Ht2, Hown, Ht1, <- !app_assoc. cbn [app]. reflexivity.
Qed.

Lemma stat_leaf_calls fuel g path file w :
  exists r w',
    stat (S fuel) g path file 0 w = Some (r, w') /\
    statCalls w' = statCalls w ++ [EvStat path file 0].
Proof.
  rewrite stat_unfold. cbn [Z.eqb orb].
  exists (reportResult g file), (afterReport g path file 0 w). split.
  - now destruct (reportResult g file).
  - unfold statCalls, afterReport. cbn [trace]. rewrite filter_app. cbn [filter isStatEv].
    now rewrite (report_no_stat _ (reportEvents_isReport _ _ _ _)).
Qed.

(** The entry into [stat] for one source, if it resolves. *)
Definition topCall (g : Commands) (fn : string -> Error + File) (src : string) : list event :=
  match fn src with
  | inl _ => []
  | inr f => [EvStat (displaySrc g src f) f (Depth (opts g))]
  end.

(** X13.  With a [Depth] of 0, [statfn] returns, and it enters [stat]
    exactly once for every source that resolves, in the order of the
    sources, and never for a child: a source that fails is skipped and the
    ones after it are still visited. *)
Theorem statfn_depth0_calls fuel g fname fn w :
  Depth (opts g) = 0 ->
  exists r w',
    statfn (S fuel) g fname fn w = Some (r, w') /\
    statCalls w' = statCalls w ++ flat_map (topCall g fn) (Sources (opts g)).
Proof.
  intros Hd. unfold statfn. generalize (@None Error) as err. revert w.
  induction (Sources (opts g)) as [|src rest IH]; intros w err; cbn [statfnLoop flat_map].
  - exists err, w. split; [reflexivity|]. now rewrite app_nil_r.
  - unfold bind at 1. cbn [emit]. unfold topCall at 1.
    set (w0 := mkWorld (trace w ++ [EvResolve src]) (firstLine w)).
    assert (Hw0 : statCalls w0 = statCalls w).
    { unfold statCalls, w0. cbn [trace]. rewrite filter_app. simpl. apply app_nil_r. }
    destruct (fn src) as [fErr|f].
    + match goal with
      | |- context [statfnLoop _ _ _ _ rest ?e w0] => destruct (IH w0 e) as [r [w' [H Hc]]]
      end.
      exists r, w'. split; [exact H|]. now rewrite Hc, Hw0.
    + unfold bind at 1. fold (displaySrc g src f). rewrite Hd.
      destruct (stat_leaf_calls fuel g (displaySrc g src f) f w0) as [r1 [w1 [Hs Hc1]]].
      rewrite Hs.
      assert (Hgoal : forall e,
                 exists r w',
                   statfnLoop (S fuel) g fname fn rest e w1 = Some (r, w') /\
                   statCalls w' =
                   statCalls w ++ [EvStat (displaySrc g src f) f 0] ++
                     flat_map (topCall g fn) rest).
      { intros e. destruct (IH w1 e) as [r [w' [H Hc]]].
        exists r, w'. split; [exact H|]. now rewrite Hc, Hc1, Hw0, <- app_assoc. }
      destruct r1; apply Hgoal.
Qed.

Lemma statfn_failure_message fuel g fname fn w r w' src s fErr :
  In src (Sources (opts g)) ->
  sourceFailure g fn src = Some (s, fErr) ->
  statfn fuel g fname fn w = Some (r, w') ->
  exists e, r = Some e /\ contains (errText e) (failureMsg fname s fErr).
Proof.
  intros Hin Hfail H. unfold statfn in H.
  apply statfnLoop_spec in H as [Hr _].
  apply in_split in Hin as [l1 [l2 Hl]].
  destruct (aggregate_failure g fname fn l1 src l2 s fErr Hfail)
    as [e1 [e [Ha [_ [He Hc]]]]].
  exists e. split; [|exact Hc]. now rewrite Hr, Hl, Ha.
Qed.

(** X14.  [Stat] resolves its sources by path and [StatById] by id, and
    each signs the failures with its own name: when a source does not
    resolve, the error returned holds the line [stat: <source> err: <text>]
    for [Stat] and [statById: <source> err: <text>] for [StatById]. *)
Theorem Stat_StatById_messages fuel g w r w' src fErr :
  In src (Sources (opts g)) ->
  (FindByPath (rem g) src = inl fErr ->
   Stat fuel g w = Some (r, w') ->
   exists e, r = Some e /\
     contains (errText e) ("stat: " ++ src ++ " err: " ++ errText fErr ++ nl)) /\
  (FindById (rem g) src = inl fErr ->
   StatById fuel g w = Some (r, w') ->
   exists e, r = Some e /\
     contains (errText e) ("statById: " ++ src ++ " err: " ++ errText fErr ++ nl)).
Proof.
  intros Hin. split; intros Hfn H.
  - apply (statfn_failure_message fuel g "stat" (FindByPath (rem g)) w r w' src src fErr Hin);
      [|exact H]. unfold sourceFailure. now rewrite Hfn.
  - apply (statfn_failure_message fuel g "statById" (FindById (rem g)) w r w' src src fErr Hin);
      [|exact H]. unfold sourceFailure. now rewrite Hfn.
Qed.

(** X15.  In checksum mode, when the listing of a container given as a
    source fails, the message of the failure does not name the source: it
    names the file, or nothing when the root path of the options is the
    root of the store, because [statfn] has overwritten [src] by then. *)
Theorem statfn_checksum_failure_name fuel g fname fn w r w' src f fErr :
  Md5sum (opts g) = true ->
  In src (Sources (opts g)) ->
  fn src = inr f ->
  IsDir f = true ->
  Depth (opts g) <> 0 ->
  firstError (FindByParentId (rem g) (Id f) (Hidden (opts g))) = Some fErr ->
  statfn fuel g fname fn w = Some (r, w') ->
  exists e, r = Some e /\
    contains (errText e)
      (fname ++ ": " ++ (if rootLike (Path (opts g)) then EmptyString else Name f) ++
       " err: " ++ errText fErr ++ nl).
Proof.
  intros Hmd5 Hin Hfn Hdir Hd Herr H.
  assert (Hfail : sourceFailure g fn src =
                  Some (if rootLike (Path (opts g)) then EmptyString else Name f, fErr)).
  { unfold sourceFailure, statResult, reportResult, displaySrc.
    rewrite Hfn, Hmd5, Hdir. apply Z.eqb_neq in Hd. rewrite Hd. cbn [negb orb andb].
    now rewrite collect_spec, Herr. }
  exact (statfn_failure_message fuel g fname fn w r w' src _ fErr Hin Hfail H).
Qed.

(** ** A file in verbose mode *)

(** The text of the block of one permission. *)
Definition permissionText (perm : drive.Permission) : string :=
  (nl ++ "*" ++ nl ++
   "Name: " ++ drive.Name perm ++ " <" ++ drive.EmailAddress perm ++ ">" ++ nl ++
   padRight 20 "Role" ++ " " ++ padRight 30 (drive.Role perm) ++ nl ++
   padRight 20 "AccountType" ++ " " ++ padRight 30 (drive.Type' perm) ++ nl ++
   "*" ++ nl)%string.

(** The text of the metadata block. *)
Definition fileStatText (path : string) (file : File) : string :=
  (nl ++ esc ++ "[92m" ++ path ++ esc ++ "[00m" ++ nl ++
   concat EmptyString (map rowText (fileStatRows file)))%string.

Lemma textOf_permission perm : textOf (permissionEvents perm) = permissionText perm.
Proof.
  unfold permissionEvents, permissionText. rewrite !textOf_cons. cbn [render].
  change (textOf []) with EmptyString.
  assert (H1 : forall n e,
             Sprintf (nl ++ "*" ++ nl ++ "Name: %v <%s>" ++ nl) [VString n; VString e] =
             (nl ++ "*" ++ nl ++ "Name: " ++ n ++ " <" ++ e ++ ">" ++ nl)%string)
    by reflexivity.
  assert (H2 : forall k v,
             Sprintf ("%-20s %-30v" ++ nl) [VString k; VString v] =
             (padRight 20 k ++ " " ++ padRight 30 v ++ nl)%string)
    by reflexivity.
  rewrite H1, !H2. change (Sprintf ("*" ++ nl) []) with ("*" ++ nl)%string.
  rewrite string_app_nil_r, !string_app_assoc. reflexivity.
Qed.

Lemma textOf_permissions perms :
  textOf (flat_map permissionEvents perms) =
  concat EmptyString (map permissionText perms).
Proof.
  induction perms as [|perm perms IH]; [reflexivity|].
  cbn [flat_map map]. now rewrite textOf_app, concat_nosep_cons, IH, textOf_permission.
Qed.

(** X16.  In verbose mode, on a file that is not expanded and whose
    permissions can be read, [stat] returns [nil] and writes the metadata
    block of the file under the path it was given, followed by one block
    for every permission, in the order the remote gave them. *)
Theorem stat_verbose_leaf fuel g path file depth w :
  Md5sum (opts g) = false -> CsvOutput (opts g) = false ->
  snd (listPermissions (rem g) (Id file)) = None ->
  depth = 0 \/ IsDir file = false ->
  exists w',
    stat (S fuel) g path file depth w = Some (None, w') /\
    output w' =
    (output w ++ fileStatText path file ++
     concat EmptyString
       (map permissionText (fst (listPermissions (rem g) (Id file)))))%string.
Proof.
  intros Hmd5 Hcsv Hperm Hleaf. rewrite stat_unfold.
  assert (Hl : (depth =? 0) || negb (IsDir file) = true).
  { destruct Hleaf as [->| ->]; [reflexivity|apply orb_true_r]. }
  rewrite Hl. unfold reportResult. rewrite Hmd5, Hcsv, Hperm.
  eexists. split; [reflexivity|].
  unfold afterReport. rewrite output_app. unfold output. f_equal.
  unfold reportEvents. rewrite Hmd5, Hcsv, Hperm.
  rewrite !textOf_cons, textOf_app, textOf_permissions. cbn [render append].
  unfold fileStatEvents. rewrite textOf_cons, textOf_rows. cbn [render].
  unfold fileStatText.
  assert (H1 : forall p,
             Sprintf (nl ++ esc ++ "[92m%s" ++ esc ++ "[00m" ++ nl) [VString p] =
             (nl ++ esc ++ "[92m" ++ p ++ esc ++ "[00m" ++ nl)%string)
    by reflexivity.
  rewrite H1, !string_app_assoc. reflexivity.
Qed.

End Traversal.

(** ** The further properties on the sample store *)

Lemma stat_depth_bounds_witness :
  exists r w' evs,
    stat 3 (Sample.cmd true false 2 []) "a" Sample.a 2 initWorld = Some (r, w') /\
    trace w' = evs /\
    forall p f d, In (EvStat p f d) evs -> (0 <= 2 -> 0 <= d <= 2) /\ (2 < 0 -> d = 2).
Proof.
  destruct (stat 3 (Sample.cmd true false 2 []) "a" Sample.a 2 initWorld)
    as [[r w']|] eqn:H; [|vm_compute in H; discriminate H].
  destruct (stat_depth_bounds _ _ _ _ _ _ _ _ H) as [evs [Ht Hb]].
  exists r, w', evs. split; [reflexivity|]. split; [exact Ht|exact Hb].
Defined.

Lemma stat_listings_hidden_witness :
  exists r w' evs,
    stat 3 (Sample.cmd false false 2 []) "a" Sample.a 2 initWorld = Some (r, w') /\
    trace w' = evs /\
    (forall parentId hidden, In (EvFindByParentId parentId hidden) evs -> hidden = false) /\
    (forall src, ~ In (EvResolve src) evs).
Proof.
  destruct (stat 3 (Sample.cmd false false 2 []) "a" Sample.a 2 initWorld)
    as [[r w']|] eqn:H; [|vm_compute in H; discriminate H].
  destruct (stat_listings_hidden _ _ _ _ _ _ _ _ H) as [evs [Ht Hb]].
  exists r, w', evs. split; [reflexivity|]. split; [exact Ht|exact Hb].
Defined.

Lemma stat_checksum_only_witness :
  exists r w',
    stat 3 (Sample.cmd true true 2 []) "a" Sample.a 2 initWorld = Some (r, w') /\
    firstLine w' = true.
Proof.
  destruct (stat 3 (Sample.cmd true true 2 []) "a" Sample.a 2 initWorld)
    as [[r w']|] eqn:H; [|vm_compute in H; discriminate H].
  exists r, w'. split; [reflexivity|].
  exact (proj1 (stat_checksum_only 3 (Sample.cmd true true 2 []) "a" Sample.a 2
                  initWorld r w' eq_refl H)).
Defined.

Lemma stat_verbose_keeps_firstLine_witness :
  exists r w',
    stat 3 (Sample.cmd false false 2 []) "a" Sample.a 2 initWorld = Some (r, w') /\
    firstLine w' = true.
Proof.
  destruct (stat 3 (Sample.cmd false false 2 []) "a" Sample.a 2 initWorld)
    as [[r w']|] eqn:H; [|vm_compute in H; discriminate H].
  exists r, w'. split; [reflexivity|].
  exact (proj1 (stat_verbose_keeps_firstLine 3 (Sample.cmd false false 2 []) "a" Sample.a 2
                  initWorld r w' eq_refl eq_refl H)).
Defined.

Lemma stat_verbose_perm_error_witness :
  option_map fst (stat 1 (Sample.cmd false false 1 []) "a/c/d" Sample.d 1 initWorld)
  = Some (Some Sample.denied).
Proof.
  rewrite (stat_verbose_perm_error 0 (Sample.cmd false false 1 []) "a/c/d" Sample.d 1
             initWorld Sample.denied eq_refl eq_refl eq_refl).
  reflexivity.
Defined.

Lemma stat_csv_ignores_perm_error_witness :
  exists w', stat 1 (Sample.cmd false true 1 []) "a/c/d" Sample.d 1 initWorld
             = Some (None, w').
Proof.
  destruct (stat 1 (Sample.cmd false true 1 []) "a/c/d" Sample.d 1 initWorld)
    as [[r w']|] eqn:H; [|vm_compute in H; discriminate H].
  exists w'.
  rewrite (stat_csv_ignores_perm_error 1 (Sample.cmd false true 1 []) "a/c/d" Sample.d 1
             initWorld r w' eq_refl H).
  reflexivity.
Defined.

Lemma stat_csv_folder_witness :
  exists w',
    stat 2 (Sample.cmd false true 1 []) "a" Sample.a 1 initWorld = Some (None, w') /\
    output w' = (csvHeader ++ csvRow Sample.b Sample.owner)%string.
Proof.
  destruct (stat_csv_folder 0 (Sample.cmd false true 1 []) "a" Sample.a initWorld
              eq_refl eq_refl eq_refl eq_refl) as [w' [Hs [_ Hout]]].
  exists w'. split; [exact Hs|]. rewrite Hout. reflexivity.
Defined.

Lemma statfn_plain_path_witness :
  exists r w' pre post,
    Stat 2 (Sample.cmd false true 1 ["/zz"; "/a"]) initWorld = Some (r, w') /\
    trace w' =
    (pre ++ EvResolve "/a" :: EvStat "/a" Sample.a 1 :: EvListPermissions "id-a" :: post)%list.
Proof.
  assert (H : exists r w', Stat 2 (Sample.cmd false true 1 ["/zz"; "/a"]) initWorld
                           = Some (r, w')).
  { eexists _, _. vm_compute. reflexivity. }
  destruct H as [r [w' H]].
  destruct (statfn_plain_path 2 (Sample.cmd false true 1 ["/zz"; "/a"]) "stat"
              (FindByPath Sample.rem) initWorld r w' ["/zz"] "/a" [] Sample.a
              eq_refl eq_refl eq_refl H) as [pre [post Ht]].
  exists r, w', pre, post. split; [exact H|exact Ht].
Defined.

Lemma statfn_depth0_calls_witness :
  exists r w',
    Stat 1 (Sample.cmd false false 0 ["/a"; "/zz"; "/a"]) initWorld = Some (r, w') /\
    statCalls w' = [EvStat "/a" Sample.a 0; EvStat "/a" Sample.a 0].
Proof.
  destruct (statfn_depth0_calls 0 (Sample.cmd false false 0 ["/a"; "/zz"; "/a"]) "stat"
              (FindByPath Sample.rem) initWorld eq_refl) as [r [w' [Hs Hc]]].
  exists r, w'. split; [exact Hs|exact Hc].
Defined.

Lemma Stat_StatById_messages_witness :
  exists r w' e,
    StatById 2 (Sample.cmd false false 1 ["id-a"; "id-zz"]) initWorld = Some (r, w') /\
    r = Some e /\
    contains (errText e) ("statById: id-zz err: not found" ++ nl).
Proof.
  destruct (StatById 2 (Sample.cmd false false 1 ["id-a"; "id-zz"]) initWorld)
    as [[r w']|] eqn:H; [|vm_compute in H; discriminate H].
  destruct (proj2 (Stat_StatById_messages 2 (Sample.cmd false false 1 ["id-a"; "id-zz"])
                     initWorld r w' "id-zz" Sample.notFound
                     (or_intror (or_introl eq_refl))) eq_refl H) as [e [He Hc]].
  exists r, w', e. split; [reflexivity|]. split; [exact He|exact Hc].
Defined.

Lemma stat_verbose_leaf_witness :
  exists w',
    stat 1 (Sample.cmd false false 1 []) "a/b" Sample.b 1 initWorld = Some (None, w') /\
    output w' = (fileStatText "a/b" Sample.b ++ permissionText Sample.owner)%string.
Proof.
  destruct (stat_verbose_leaf 0 (Sample.cmd false false 1 []) "a/b" Sample.b 1 initWorld
              eq_refl eq_refl eq_refl (or_intror eq_refl)) as [w' [Hs Hout]].
  exists w'. split; [exact Hs|]. rewrite Hout. reflexivity.
Defined.

(** The sample store, with the folder [c] reachable by its id. *)
Definition remById : Remote :=
  mkRemote (FindByPath Sample.rem)
    (fun i => if (i =? "id-c")%string then inr Sample.c else FindById Sample.rem i)
    (listPermissions Sample.rem)
    (FindByParentId Sample.rem).

Lemma statfn_checksum_failure_name_witness :
  exists r w' e,
    StatById 2 (mkCommands (mkOptions ["id-c"] true false 1 false "/x") remById) initWorld
    = Some (r, w') /\
    r = Some e /\
    contains (errText e) ("statById: c err: backend error" ++ nl).
Proof.
  destruct (StatById 2 (mkCommands (mkOptions ["id-c"] true false 1 false "/x") remById)
              initWorld) as [[r w']|] eqn:H; [|vm_compute in H; discriminate H].
  destruct (statfn_checksum_failure_name 2
              (mkCommands (mkOptions ["id-c"] true false 1 false "/x") remById)
              "statById" (FindById remById) initWorld r w' "id-c" Sample.c Sample.ioErr
              eq_refl (or_introl eq_refl) eq_refl eq_refl ltac:(discriminate) eq_refl H)
    as [e [He Hc]].
  exists r, w', e. split; [reflexivity|]. split; [exact He|exact Hc].
Defined.
